(** * Mask-based selection and editing engine: a shallow embedding

    The development follows [components/magic_eraser.py]: the classes
    [MagicEraser], [AdvancedSelectionTools], [ContentAwareFill] and
    [SmartCrop].  NumPy arrays are lists of rows that carry their shape,
    [uint8] samples are integers with the wrap-around written out, Python
    floats are IEEE 754 binary64 numbers, and a Python exception is the
    [Err] branch of [result]. *)

From Stdlib Require Import ZArith QArith Lia.
From Stdlib Require PrimFloat FloatOps SpecFloat Uint63.
From stdpp Require Import base numbers option list list_numbers strings.

Local Open Scope Z_scope.

(** ** Python exceptions as a result type *)

Inductive pyerr := IndexError | ValueError | ZeroDivisionError | OverflowError.

Inductive result (A : Type) :=
  | Ok (a : A)
  | Err (e : pyerr).
Arguments Ok {A} a.
Arguments Err {A} e.

Definition result_bind {A B} (f : A → result B) (m : result A) : result B :=
  match m with
  | Ok a => f a
  | Err e => Err e
  end.

#[global] Instance result_mbind : MBind result := @result_bind.
#[global] Instance result_mret : MRet result := @Ok.

(** ** NumPy: samples, arrays, indexing, slicing, broadcasting *)

(** An [np.uint8] value: arithmetic on it wraps modulo 256. *)
Definition u8 (v : Z) : Z := v mod 256.

(** Python's [range(lo, hi)]. *)
Definition py_range (lo hi : Z) : list Z := seqZ lo (hi - lo).

(** A two-dimensional array (a third axis, when there is one, is the
    tuple type of the elements).  [nrows], [ncols] are [a.shape[:2]]. *)
Record ndarray (A : Type) := NDArray {
  nrows : Z;
  ncols : Z;
  elems : list (list A)
}.
Arguments NDArray {A} nrows ncols elems.
Arguments nrows {A} n.
Arguments ncols {A} n.
Arguments elems {A} n.

(** The shape invariant every NumPy array has. *)
Definition wf_array {A} (a : ndarray A) : Prop :=
  0 ≤ nrows a ∧ 0 ≤ ncols a ∧
  length (elems a) = Z.to_nat (nrows a) ∧
  Forall (λ r, length r = Z.to_nat (ncols a)) (elems a).

Definition same_shape {A B} (a : ndarray A) (b : ndarray B) : Prop :=
  nrows a = nrows b ∧ ncols a = ncols b.

Definition shape_eqb {A B} (a : ndarray A) (b : ndarray B) : bool :=
  (nrows a =? nrows b) && (ncols a =? ncols b).

(** [np.zeros((h, w))], [np.full]. *)
Definition np_full {A} (h w : Z) (v : A) : ndarray A :=
  NDArray h w (replicate (Z.to_nat h) (replicate (Z.to_nat w) v)).

(** [a[y, x]] where the surrounding code has already established
    [0 <= y < nrows] and [0 <= x < ncols]. *)
Definition at2 {A} `{!Inhabited A} (a : ndarray A) (y x : Z) : A :=
  (elems a !!! Z.to_nat y) !!! Z.to_nat x.

(** [a[y, x] = v], same proviso. *)
Definition set2 {A} (a : ndarray A) (y x : Z) (v : A) : ndarray A :=
  NDArray (nrows a) (ncols a)
          (alter (λ r, <[Z.to_nat x := v]> r) (Z.to_nat y) (elems a)).

(** One axis of NumPy integer indexing: a negative index counts from the
    end, anything outside [-n, n) raises [IndexError]. *)
Definition np_index (n i : Z) : result nat :=
  if (0 <=? i) && (i <? n) then Ok (Z.to_nat i)
  else if (- n <=? i) && (i <? 0) then Ok (Z.to_nat (i + n))
  else Err IndexError.

(** [a[y, x]] with NumPy's full index semantics. *)
Definition np_get2 {A} `{!Inhabited A} (a : ndarray A) (y x : Z) : result A :=
  i ← np_index (nrows a) y;
  j ← np_index (ncols a) x;
  Ok ((elems a !!! i) !!! j).

(** [a[y, x] = v] with NumPy's full index semantics. *)
Definition np_set2 {A} (a : ndarray A) (y x : Z) (v : A) : result (ndarray A) :=
  i ← np_index (nrows a) y;
  j ← np_index (ncols a) x;
  Ok (NDArray (nrows a) (ncols a) (alter (λ r, <[j := v]> r) i (elems a))).

(** One bound of a Python slice on an axis of length [n]: negative
    bounds count from the end, and every bound is clamped to [0, n]. *)
Definition slice_bound (n b : Z) : Z :=
  if b <? 0 then Z.max 0 (b + n) else Z.min b n.

(** [l[lo:hi]] and its length. *)
Definition py_slice {A} (lo hi : Z) (l : list A) : list A :=
  let n := Z.of_nat (length l) in
  let lo' := slice_bound n lo in
  let hi' := slice_bound n hi in
  take (Z.to_nat (hi' - lo')) (drop (Z.to_nat lo') l).

Definition slice_len (n lo hi : Z) : Z :=
  Z.max 0 (slice_bound n hi - slice_bound n lo).

(** [a[y1:y2, x1:x2]]. *)
Definition np_slice2 {A} (a : ndarray A) (y1 y2 x1 x2 : Z) : ndarray A :=
  NDArray (slice_len (nrows a) y1 y2) (slice_len (ncols a) x1 x2)
          (py_slice x1 x2 <$> py_slice y1 y2 (elems a)).

(** Broadcasting of one axis: equal lengths, or one of them is 1. *)
Definition bdim (da db : Z) : result Z :=
  if da =? db then Ok da
  else if da =? 1 then Ok db
  else if db =? 1 then Ok da
  else Err ValueError.

(** The index an axis of length [d] is read at, for position [i] of the
    broadcast result. *)
Definition bidx (d i : Z) : Z := if d =? 1 then 0 else i.

(** The array whose element at row [y], column [x] is [f y x]. *)
Definition np_tabulate {A} (r c : Z) (f : Z → Z → A) : ndarray A :=
  NDArray r c ((λ y, (λ x, f y x) <$> py_range 0 c) <$> py_range 0 r).

(** An element-wise binary ufunc ([np.maximum], [-], [np.where] with a
    scalar branch, ...) on two arrays, with broadcasting; shapes that do
    not broadcast raise [ValueError]. *)
Definition np_broadcast2 {A B C} `{!Inhabited A, !Inhabited B}
    (f : A → B → C) (a : ndarray A) (b : ndarray B) : result (ndarray C) :=
  r ← bdim (nrows a) (nrows b);
  c ← bdim (ncols a) (ncols b);
  Ok (np_tabulate r c
        (λ y x, f (at2 a (bidx (nrows a) y) (bidx (ncols a) x))
                  (at2 b (bidx (nrows b) y) (bidx (ncols b) x)))).

(** [a[...] = v] where [v] is an array: [v] is broadcast to the shape of
    [a] (an axis of [v] has the length of [a]'s or length 1), and [g]
    stores one element. *)
Definition np_assign {A B} `{!Inhabited A, !Inhabited B}
    (g : A → B → A) (a : ndarray A) (v : ndarray B) : result (ndarray A) :=
  if ((nrows v =? nrows a) || (nrows v =? 1)) &&
     ((ncols v =? ncols a) || (ncols v =? 1))
  then Ok (np_tabulate (nrows a) (ncols a)
             (λ y x, g (at2 a y x) (at2 v (bidx (nrows v) y) (bidx (ncols v) x))))
  else Err ValueError.

(** [a[m] = v] where [m] is a boolean array and [v] one element.  NumPy
    prepares the index first: the shape of [m] must be that of [a], or it
    raises [IndexError].  It then converts the value to the element type
    of [a], which may raise as well, and this happens whether or not any
    position of [m] is true.  Only then are the true positions written. *)
Definition np_mask_assign {A} `{!Inhabited A}
    (a : ndarray A) (m : ndarray bool) (v : result A) : result (ndarray A) :=
  if shape_eqb m a
  then v ← v;
       Ok (np_tabulate (nrows a) (ncols a)
             (λ y x, if at2 m y x then v else at2 a y x))
  else Err IndexError.

(** [a[m]] where [m] is a boolean array: the elements at the true
    positions, in row-major order; the shape of [m] must be that of [a]. *)
Fixpoint select_where {A} (l : list A) (m : list bool) : list A :=
  match l, m with
  | v :: l', b :: m' => if b then v :: select_where l' m' else select_where l' m'
  | _, _ => []
  end.

Definition np_bool_select {A} (a : ndarray A) (m : ndarray bool)
    : result (list A) :=
  if shape_eqb m a
  then Ok (concat (zip_with select_where (elems a) (elems m)))
  else Err IndexError.

(** [np.any(m)]. *)
Definition np_any (m : ndarray bool) : bool :=
  existsb (existsb id) (elems m).

(** [np.where(m)], zipped: the (row, column) pairs of the true
    elements, in row-major order. *)
Definition np_where (m : ndarray bool) : list (Z * Z) :=
  y ← py_range 0 (nrows m);
  x ← py_range 0 (ncols m);
  if at2 m y x then [(y, x)] else [].

(** [np.sum(a)] on a [uint8] array: the accumulator is 64 bits wide, the
    sum does not wrap. *)
Definition np_sum (a : ndarray Z) : Z :=
  foldr Z.add 0 (concat (elems a)).

(** An element-wise unary operation. *)
Definition np_map {A B} (f : A → B) (a : ndarray A) : ndarray B :=
  NDArray (nrows a) (ncols a) ((λ r : list A, f <$> r) <$> elems a).

(** Pixels of three and of four channels. *)
Definition rgb : Type := Z * Z * Z.
Definition rgba : Type := Z * Z * Z * Z.

(** A [for] loop whose body may raise. *)
Fixpoint foldM {A S} (f : S → A → result S) (s : S) (l : list A) : result S :=
  match l with
  | [] => Ok s
  | a :: l' => s' ← f s a; foldM f s' l'
  end.

(** One channel of [(c - t) ** 2] on [uint8] operands: both the
    difference and the square are [uint8] results. *)
Definition sq_diff (a b : Z) : Z := u8 (u8 (a - b) * u8 (a - b)).

(** [np.sum((c - t) ** 2)] over the three channels of a pixel; the sum
    is taken in a 64-bit accumulator and cannot wrap. *)
Definition sum_sq (c t : rgb) : Z :=
  let '(r1, g1, b1) := c in
  let '(r2, g2, b2) := t in
  sq_diff r1 r2 + sq_diff g1 g2 + sq_diff b1 b2.

(** ** Images *)

Inductive Mode := L | RGB | RGBA.

(** A PIL image is its mode together with its pixel array; PIL's
    [image.size] is (width, height). *)
Inductive Image :=
  | ImgL (a : ndarray Z)
  | ImgRGB (a : ndarray rgb)
  | ImgRGBA (a : ndarray rgba).

(** A selection mask is an image of mode 'L'; [np.array(mask)] and
    [Image.fromarray(a, 'L')] are the two directions of this
    identification, and [mask.convert('L')] returns the mask itself. *)
Definition Mask : Type := ndarray Z.

Definition mode (im : Image) : Mode :=
  match im with
  | ImgL _ => L
  | ImgRGB _ => RGB
  | ImgRGBA _ => RGBA
  end.

Definition width (im : Image) : Z :=
  match im with
  | ImgL a => ncols a
  | ImgRGB a => ncols a
  | ImgRGBA a => ncols a
  end.

Definition height (im : Image) : Z :=
  match im with
  | ImgL a => nrows a
  | ImgRGB a => nrows a
  | ImgRGBA a => nrows a
  end.

Definition size (im : Image) : Z * Z := (width im, height im).

Definition wf_image (im : Image) : Prop :=
  match im with
  | ImgL a => wf_array a
  | ImgRGB a => wf_array a
  | ImgRGBA a => wf_array a
  end.

(** Every sample of a mask is a [uint8]. *)
Definition wf_mask (m : Mask) : Prop :=
  wf_array m ∧ Forall (Forall (λ v, 0 ≤ v < 256)) (elems m).

(** [np.array(image.convert('RGB'))]: an 'L' sample is replicated, the
    alpha channel of 'RGBA' is dropped. *)
Definition to_rgb (im : Image) : ndarray rgb :=
  match im with
  | ImgL a => np_map (λ v, (v, v, v)) a
  | ImgRGB a => a
  | ImgRGBA a => np_map (λ '(r, g, b, _), (r, g, b)) a
  end.

(** [np.array(image.convert('RGBA'))]: modes without alpha become fully
    opaque. *)
Definition to_rgba (im : Image) : ndarray rgba :=
  match im with
  | ImgL a => np_map (λ v, (v, v, v, 255)) a
  | ImgRGB a => np_map (λ '(r, g, b), (r, g, b, 255)) a
  | ImgRGBA a => a
  end.

(** [Image.new('L', size, 0)] with [size = (w, h)]. *)
Definition Image_new_L (sz : Z * Z) (v : Z) : Mask :=
  np_full (snd sz) (fst sz) v.

(** ** AdvancedSelectionTools: the selection algebra *)

Module AdvancedSelectionTools.

(** [invert_selection]: [255 - mask_array] on a [uint8] array. *)
Definition invert_selection (mask : Mask) : Mask :=
  np_map (λ v, u8 (255 - v)) mask.

(** [combine_selections].  The arithmetic is [uint8] arithmetic:
    [array1 - array2] wraps, and [np.abs] of an unsigned value is the
    value itself.  [result.astype(np.uint8)] closes every branch. *)
Definition combine_selections (mask1 mask2 : Mask) (operation : string)
    : result Mask :=
  res ←
    (if String.eqb operation "union" then
       np_broadcast2 Z.max mask1 mask2
     else if String.eqb operation "intersection" then
       np_broadcast2 Z.min mask1 mask2
     else if String.eqb operation "difference" then
       np_broadcast2 (λ a b, if b <? a then u8 (a - b) else 0) mask1 mask2
     else if String.eqb operation "symmetric_difference" then
       np_broadcast2 (λ a b, Z.abs (u8 (a - b))) mask1 mask2
     else Ok mask1);
  Ok (np_map u8 res).

Section Drawing.

(** [ImageDraw.Draw(mask).rectangle(box, fill=v)], a PIL primitive: it
    returns the mask with the box filled. *)
Variable draw_rectangle : Mask → Z * Z * Z * Z → Z → Mask.

(** [rectangular_select]: the two corners are put in order before the
    rectangle is drawn. *)
Definition rectangular_select (image : Image) (start end_ : Z * Z) : Mask :=
  let mask := Image_new_L (size image) 0 in
  let x1 := Z.min (fst start) (fst end_) in
  let y1 := Z.min (snd start) (snd end_) in
  let x2 := Z.max (fst start) (fst end_) in
  let y2 := Z.max (snd start) (snd end_) in
  draw_rectangle mask (x1, y1, x2, y2) 255.

End Drawing.

End AdvancedSelectionTools.

(** ** MagicEraser: colour-similarity selection and erasing *)

Module MagicEraser.

(** The fields set by [__init__]. *)
Record t := Make {
  tolerance : Z;
  contiguous : bool;
  sample_all_layers : bool;
  anti_alias : bool;
  feather_radius : Z
}.

Definition init : t :=
  {| tolerance := 32; contiguous := true; sample_all_layers := false;
     anti_alias := true; feather_radius := 1 |}.

(** [tolerance or self.tolerance]: [None] and [0] are both falsy. *)
Definition py_or (v : option Z) (dflt : Z) : Z :=
  match v with
  | Some n => if n =? 0 then dflt else n
  | None => dflt
  end.

(** [np.sqrt(s) <= tolerance] for an integer [s >= 0] and an integer
    tolerance: the square root of [s] is at most [tol] exactly when
    [tol] is not negative and [s <= tol * tol]. *)
Definition within_tolerance (s tol : Z) : bool :=
  (0 <=? tol) && (s <=? tol * tol).

(** The [while stack:] loop of [_flood_fill_select].  The head of the
    list is the top of the stack ([stack.pop()] takes the last element of
    the Python list); [stack.extend] pushes its four points in order, so
    [(x, y-1)] ends on top.  [None] is reserved for running out of
    [fuel]. *)
Fixpoint flood_loop (fuel : nat) (img_array : ndarray rgb) (target_color : rgb)
    (tol : Z) (stack : list (Z * Z)) (visited : ndarray bool)
    (mask : ndarray Z) : option (ndarray Z) :=
  match fuel with
  | O => None
  | S fuel' =>
      match stack with
      | [] => Some mask
      | (x, y) :: stack' =>
          if (x <? 0) || (x >=? ncols img_array) || (y <? 0) ||
             (y >=? nrows img_array) || at2 visited y x
          then flood_loop fuel' img_array target_color tol stack' visited mask
          else
            let current_color := at2 img_array y x in
            if within_tolerance (sum_sq current_color target_color) tol
            then flood_loop fuel' img_array target_color tol
                   ((x, y - 1) :: (x, y + 1) :: (x - 1, y) :: (x + 1, y) :: stack')
                   (set2 visited y x true) (set2 mask y x 255)
            else flood_loop fuel' img_array target_color tol stack' visited mask
      end
  end.

(** Every pixel is marked at most once and each marking pushes four
    points, so the loop body runs at most [4 * height * width + 1]
    times. *)
Definition flood_fuel (img_array : ndarray rgb) : nat :=
  4 * (Z.to_nat (nrows img_array) * Z.to_nat (ncols img_array)) + 2.

Definition _flood_fill_select (img_array : ndarray rgb) (start_point : Z * Z)
    (target_color : rgb) (tol : Z) : option (ndarray Z) :=
  let height := nrows img_array in
  let width := ncols img_array in
  let mask := np_full height width 0 in
  let visited := np_full height width false in
  flood_loop (flood_fuel img_array) img_array target_color tol
             [start_point] visited mask.

Definition _global_color_select (img_array : ndarray rgb) (target_color : rgb)
    (tol : Z) : ndarray Z :=
  np_map (λ c, if within_tolerance (sum_sq c target_color) tol
               then u8 (1 * 255) else u8 (0 * 255)) img_array.

Section Smoothing.

(** [cv2.GaussianBlur(src, ksize, sigma)], an OpenCV primitive: it is a
    parameter of the selection code. *)
Variable GaussianBlur : ndarray Z → Z * Z → Q → ndarray Z.

Definition _apply_anti_aliasing (mask : ndarray Z) : ndarray Z :=
  GaussianBlur mask (3, 3) (1 # 2)%Q.

Definition _apply_feathering (mask : ndarray Z) (radius : Z) : ndarray Z :=
  if radius <=? 0 then mask
  else
    let kernel_size := radius * 2 + 1 in
    GaussianBlur mask (kernel_size, kernel_size) (inject_Z radius / 3)%Q.

Definition magic_select (self : t) (image : Image) (point : Z * Z)
    (tolerance : option Z) (contiguous : option bool) : option Mask :=
  let tolerance := py_or tolerance (MagicEraser.tolerance self) in
  let contiguous :=
    match contiguous with
    | Some c => c
    | None => MagicEraser.contiguous self
    end in
  let img_array := to_rgb image in
  let height := nrows img_array in
  let width := ncols img_array in
  if (fst point >=? width) || (snd point >=? height) ||
     (fst point <? 0) || (snd point <? 0)
  then Some (Image_new_L (size image) 0)
  else
    let target_color := at2 img_array (snd point) (fst point) in
    mask ← (if contiguous
            then _flood_fill_select img_array point target_color tolerance
            else Some (_global_color_select img_array target_color tolerance));
    let mask := if anti_alias self then _apply_anti_aliasing mask else mask in
    let mask := if 0 <? feather_radius self
                then _apply_feathering mask (feather_radius self)
                else mask in
    Some mask.

End Smoothing.

(** The [erase_mode] argument: a string or a colour tuple. *)
Inductive erase_mode_t :=
  | ModeStr (s : string)
  | ModeTuple (c : list Z).

(** [mask_array > 128]. *)
Definition above_threshold (mask_array : ndarray Z) : ndarray bool :=
  np_map (λ v, 128 <? v) mask_array.

Definition set_alpha (p : rgba) (a : Z) : rgba :=
  let '(r, g, b, _) := p in (r, g, b, a).

Definition alpha (p : rgba) : Z := let '(_, _, _, a) := p in a.

(** A Python integer that a [uint8] array can hold. *)
Definition is_uint8 (v : Z) : bool := (0 <=? v) && (v <? 256).

(** A colour tuple of Python integers converted to four [uint8] samples:
    NumPy refuses an integer outside 0..255 with [OverflowError]. *)
Definition colour4 (c : list Z) : result rgba :=
  if forallb is_uint8 c
  then Ok (c !!! 0%nat, c !!! 1%nat, c !!! 2%nat, c !!! 3%nat)
  else Err OverflowError.

(** [erase_selection]: the image is promoted to 'RGBA' first, and the
    result is always an 'RGBA' image.  An [erase_mode] that matches no
    branch leaves the promoted array as it is.  A colour tuple with a
    component outside 0..255 makes the assignment raise. *)
Definition erase_selection (image : Image) (mask : Mask)
    (erase_mode : erase_mode_t) : result Image :=
  let img_array := to_rgba image in
  let mask_array := mask in
  img_array ←
    match erase_mode with
    | ModeStr s =>
        if String.eqb s "transparent" then
          new_alpha ← np_broadcast2 (λ m p, if 128 <? m then 0 else alpha p)
                                    mask_array img_array;
          np_assign set_alpha img_array new_alpha
        else if String.eqb s "white" then
          np_mask_assign img_array (above_threshold mask_array)
                         (Ok (255, 255, 255, 255))
        else if String.eqb s "black" then
          np_mask_assign img_array (above_threshold mask_array)
                         (Ok (0, 0, 0, 255))
        else Ok img_array
    | ModeTuple c =>
        if bool_decide (length c = 3%nat ∨ length c = 4%nat) then
          let c := if bool_decide (length c = 3%nat) then c ++ [255] else c in
          np_mask_assign img_array (above_threshold mask_array) (colour4 c)
        else Ok img_array
    end;
  Ok (ImgRGBA img_array).

End MagicEraser.

(** ** ContentAwareFill: inpainting *)

Module ContentAwareFill.

Inductive inpaint_flag := INPAINT_NS | INPAINT_TELEA.

(** [cv2.cvtColor] with [COLOR_RGB2BGR] or [COLOR_BGR2RGB]: the first and
    third channel change places. *)
Definition cvtColor_swap (a : ndarray rgb) : ndarray rgb :=
  np_map (λ '(c1, c2, c3), (c3, c2, c1)) a.

Section Inpaint.

(** [cv2.inpaint(src, mask, radius, flags)], an OpenCV primitive. *)
Variable cv2_inpaint : ndarray rgb → ndarray Z → Z → inpaint_flag → ndarray rgb.

Definition fill_selection (image : Image) (mask : Mask) (method : string)
    : Image :=
  let img_array := to_rgb image in
  let mask_array := mask in
  let img_cv := cvtColor_swap img_array in
  let result :=
    if String.eqb method "telea" then
      cv2_inpaint img_cv mask_array 3 INPAINT_TELEA
    else if String.eqb method "ns" then
      cv2_inpaint img_cv mask_array 3 INPAINT_NS
    else img_cv in
  let result_rgb := cvtColor_swap result in
  ImgRGB result_rgb.

End Inpaint.

(** The pair [(best_score, best_patch)]; [None] is [float('inf')],
    respectively Python's [None]. *)
Definition best_t : Type := option Z * option (ndarray rgb).

(** The body of the two nested [for] loops of [_find_best_patch]. *)
Definition try_candidate (image : ndarray rgb) (mask : ndarray bool)
    (target_patch : ndarray rgb) (target_mask : ndarray bool)
    (half_size sy sx : Z) (best : best_t) : result best_t :=
  masked ← np_get2 mask sy sx;
  if masked : bool then Ok best
  else
    let candidate :=
      np_slice2 image (sy - half_size) (sy + half_size + 1)
                      (sx - half_size) (sx + half_size + 1) in
    if negb (shape_eqb candidate target_patch) then Ok best
    else
      let valid_pixels := np_map negb target_mask in
      if np_any valid_pixels then
        c ← np_bool_select candidate valid_pixels;
        t ← np_bool_select target_patch valid_pixels;
        let diff := foldr Z.add 0 (zip_with sum_sq c t) in
        if match fst best with
           | None => true
           | Some best_score => diff <? best_score
           end
        then Ok (Some diff, Some candidate)
        else Ok best
      else Ok best.

Definition _find_best_patch (image : ndarray rgb) (mask : ndarray bool)
    (target_pos : Z * Z) (patch_size : Z) : result (option (ndarray rgb)) :=
  let '(x, y) := target_pos in
  let height := nrows image in
  let width := ncols image in
  let half_size := patch_size `div` 2 in
  let y1 := Z.max 0 (y - half_size) in
  let y2 := Z.min height (y + half_size + 1) in
  let x1 := Z.max 0 (x - half_size) in
  let x2 := Z.min width (x + half_size + 1) in
  let target_patch := np_slice2 image y1 y2 x1 x2 in
  let target_mask := np_slice2 mask y1 y2 x1 x2 in
  best ← foldM (λ best sy,
            foldM (λ best sx,
                     try_candidate image mask target_patch target_mask
                                   half_size sy sx best)
                  best (py_range half_size (width - half_size)))
          ((None, None) : best_t) (py_range half_size (height - half_size));
  Ok (snd best).

(** One iteration of the loop over [fill_pixels]. *)
Definition fill_pixel (img_array : ndarray rgb) (mask_array : ndarray bool)
    (patch_size : Z) (res : ndarray rgb) (yx : Z * Z) : result (ndarray rgb) :=
  let '(y, x) := yx in
  best_patch ← _find_best_patch img_array mask_array (x, y) patch_size;
  match best_patch with
  | Some best_patch =>
      let patch_center := patch_size `div` 2 in
      v ← np_get2 best_patch patch_center patch_center;
      np_set2 res y x v
  | None => Ok res
  end.

Definition patch_match_fill (image : Image) (mask : Mask) (patch_size : Z)
    : result Image :=
  let img_array := to_rgb image in
  let mask_array := MagicEraser.above_threshold mask in
  let fill_pixels := np_where mask_array in
  res ← foldM (fill_pixel img_array mask_array patch_size) img_array fill_pixels;
  Ok (ImgRGB res).

End ContentAwareFill.

(** ** SmartCrop *)

Module SmartCrop.

(** [image.crop(box)] on one pixel array: the result has the size of the
    box, and positions of the box that lie outside the image are filled
    with zero samples. *)
Definition crop_array {A} `{!Inhabited A} (zero : A) (a : ndarray A)
    (box : Z * Z * Z * Z) : ndarray A :=
  let '(x1, y1, x2, y2) := box in
  np_tabulate (y2 - y1) (x2 - x1)
    (λ y x, let sy := y1 + y in
            let sx := x1 + x in
            if (0 <=? sy) && (sy <? nrows a) && (0 <=? sx) && (sx <? ncols a)
            then at2 a sy sx else zero).

(** PIL rejects a box whose right edge is left of its left edge, or whose
    lower edge is above its upper edge. *)
Definition crop (image : Image) (box : Z * Z * Z * Z) : result Image :=
  let '(x1, y1, x2, y2) := box in
  if (x2 <? x1) || (y2 <? y1) then Err ValueError
  else Ok match image with
          | ImgL a => ImgL (crop_array 0 a box)
          | ImgRGB a => ImgRGB (crop_array (0, 0, 0) a box)
          | ImgRGBA a => ImgRGBA (crop_array (0, 0, 0, 0) a box)
          end.

(** Python floats are IEEE 754 binary64 numbers, rounded to nearest
    even: the kernel's primitive floats.

    [float(z)] for a Python integer, as the mixed arithmetic of an integer
    and a float converts it.  The conversion is exact for the integers
    below 2^53 in absolute value, which covers every image size. *)
Definition float_of_int (z : Z) : PrimFloat.float :=
  if z <? 0
  then PrimFloat.opp (PrimFloat.of_uint63 (Uint63.of_Z (- z)))
  else PrimFloat.of_uint63 (Uint63.of_Z z).

(** [a / b] on two Python integers: the float nearest to the quotient,
    or [ZeroDivisionError]. *)
Definition true_div (a b : Z) : result PrimFloat.float :=
  if b =? 0 then Err ZeroDivisionError
  else Ok (PrimFloat.div (float_of_int a) (float_of_int b)).

(** [a / x] on an integer and a float. *)
Definition float_div (a : Z) (x : PrimFloat.float) : result PrimFloat.float :=
  if PrimFloat.eqb x PrimFloat.zero then Err ZeroDivisionError
  else Ok (PrimFloat.div (float_of_int a) x).

(** [int(x)]: truncation toward zero; an infinity raises [OverflowError]
    and a NaN [ValueError]. *)
Definition py_int (x : PrimFloat.float) : result Z :=
  match FloatOps.Prim2SF x with
  | SpecFloat.S754_zero _ => Ok 0
  | SpecFloat.S754_finite s m e =>
      let magnitude :=
        match e with
        | Z0 => Z.pos m
        | Z.pos p => Z.pos m * 2 ^ Z.pos p
        | Z.neg p => Z.pos m `div` 2 ^ Z.pos p
        end in
      Ok (if s then - magnitude else magnitude)
  | SpecFloat.S754_infinity _ => Err OverflowError
  | SpecFloat.S754_nan => Err ValueError
  end.

(** [max(0, min(extent - new_extent, focus - new_extent // 2))]: the
    offset of a window of [new_extent] pixels along an axis of [extent]
    pixels, centred on [focus] as far as the axis allows. *)
Definition clamp_offset (extent new_extent focus : Z) : Z :=
  Z.max 0 (Z.min (extent - new_extent) (focus - new_extent `div` 2)).

(** The box that keeps the full height and a window of [new_width]
    columns around the focus. *)
Definition width_box (current_width current_height new_width focus_x : Z)
    : Z * Z * Z * Z :=
  let crop_x := clamp_offset current_width new_width focus_x in
  (crop_x, 0, crop_x + new_width, current_height).

(** The box that keeps the full width and a window of [new_height] rows
    around the focus. *)
Definition height_box (current_width current_height new_height focus_y : Z)
    : Z * Z * Z * Z :=
  let crop_y := clamp_offset current_height new_height focus_y in
  (0, crop_y, current_width, crop_y + new_height).

(** The crop box [smart_resize_crop] computes, with the float arithmetic
    of the two aspect ratios and the truncation of the new width or
    height. *)
Definition crop_box (current_size target_size : Z * Z)
    (focus_point : option (Z * Z)) : result (Z * Z * Z * Z) :=
  let '(current_width, current_height) := current_size in
  let '(target_width, target_height) := target_size in
  current_ratio ← true_div current_width current_height;
  target_ratio ← true_div target_width target_height;
  let focus_point :=
    match focus_point with
    | Some p => p
    | None => (current_width `div` 2, current_height `div` 2)
    end in
  if PrimFloat.ltb target_ratio current_ratio then
    new_width ← py_int (PrimFloat.mul (float_of_int current_height)
                                      target_ratio);
    Ok (width_box current_width current_height new_width (fst focus_point))
  else
    quotient ← float_div current_width target_ratio;
    new_height ← py_int quotient;
    Ok (height_box current_width current_height new_height (snd focus_point)).

Section Resampling.

(** The Lanczos resampling kernel of [Image.resize], a PIL primitive:
    it yields the samples of the resized array. *)
Variable lanczos : ∀ A : Type, ndarray A → Z * Z → list (list A).

(** [image.resize(size, Image.Resampling.LANCZOS)]: an image of the
    same mode and of exactly the requested size. *)
Definition resize (image : Image) (sz : Z * Z) : result Image :=
  let '(w, h) := sz in
  if (w <=? 0) || (h <=? 0) then Err ValueError
  else Ok match image with
          | ImgL a => ImgL (NDArray h w (lanczos _ a sz))
          | ImgRGB a => ImgRGB (NDArray h w (lanczos _ a sz))
          | ImgRGBA a => ImgRGBA (NDArray h w (lanczos _ a sz))
          end.

Definition smart_resize_crop (image : Image) (target_size : Z * Z)
    (focus_point : option (Z * Z)) : result Image :=
  box ← crop_box (size image) target_size focus_point;
  cropped ← crop image box;
  resize cropped target_size.

End Resampling.

Section Rules.

(** The three composition rules rest on [cv2.Canny] and on float
    arithmetic with the constants [1.618] and [0.8]; [auto_crop] only
    dispatches to them. *)
Variables _rule_of_thirds_crop _golden_ratio_crop _center_weighted_crop
  : Image → Image.

Definition auto_crop (image : Image) (composition_rule : string) : Image :=
  if String.eqb composition_rule "rule_of_thirds" then
    _rule_of_thirds_crop image
  else if String.eqb composition_rule "golden_ratio" then
    _golden_ratio_crop image
  else if String.eqb composition_rule "center_weighted" then
    _center_weighted_crop image
  else image.

End Rules.

(** The body of the two nested loops of [_rule_of_thirds_crop], on the
    pair [(best_score, best_crop)]. *)
Definition thirds_candidate (width height : Z) (edges : ndarray Z)
    (x y : Z) (best : Z * (Z * Z * Z * Z)) : Z * (Z * Z * Z * Z) :=
  let third_w := width `div` 3 in
  let third_h := height `div` 3 in
  let crop_w := Z.min (width - x) (third_w * 2) in
  let crop_h := Z.min (height - y) (third_h * 2) in
  if (width `div` 2 <? crop_w) && (height `div` 2 <? crop_h) then
    let crop_region := np_slice2 edges y (y + crop_h) x (x + crop_w) in
    let score := np_sum crop_region in
    if fst best <? score then (score, (x, y, x + crop_w, y + crop_h))
    else best
  else best.

(** The crop box [_rule_of_thirds_crop] chooses, given the edge map. *)
Definition rule_of_thirds_box (width height : Z) (edges : ndarray Z)
    : Z * Z * Z * Z :=
  let third_w := width `div` 3 in
  let third_h := height `div` 3 in
  snd (foldl (λ best x,
                foldl (λ best y, thirds_candidate width height edges x y best)
                      best [0; third_h])
             (0, (0, 0, width, height)) [0; third_w]).

Section Thirds.

(** [cv2.Canny(cv2.cvtColor(img, COLOR_RGB2GRAY), 50, 150)], OpenCV
    primitives: the edge map of an 'RGB' array. *)
Variable canny_edges : ndarray rgb → ndarray Z.

Definition _rule_of_thirds_crop (image : Image) : result Image :=
  let edges := canny_edges (to_rgb image) in
  crop image (rule_of_thirds_box (width image) (height image) edges).

End Thirds.

End SmartCrop.

(** ** Vocabulary of the statements *)

(** The mask has the dimensions of the image. *)
Definition mask_fits (mask : Mask) (image : Image) : Prop :=
  nrows mask = height image ∧ ncols mask = width image.

(** The values of the three enumerations that the code recognises. *)
Definition known_operation (operation : string) : Prop :=
  operation = "union" ∨ operation = "intersection" ∨
  operation = "difference" ∨ operation = "symmetric_difference".

Definition known_rule (composition_rule : string) : Prop :=
  composition_rule = "rule_of_thirds" ∨ composition_rule = "golden_ratio" ∨
  composition_rule = "center_weighted".

Definition known_erase_mode (erase_mode : MagicEraser.erase_mode_t) : Prop :=
  match erase_mode with
  | MagicEraser.ModeStr s => s = "transparent" ∨ s = "white" ∨ s = "black"
  | MagicEraser.ModeTuple c => length c = 3%nat ∨ length c = 4%nat
  end.

(** The seed point lies outside the image. *)
Definition out_of_bounds (image : Image) (point : Z * Z) : Prop :=
  fst point < 0 ∨ snd point < 0 ∨
  width image ≤ fst point ∨ height image ≤ snd point.

(** The pixel at row [y], column [x] is nearer than [half] to an edge of
    an image of [h] rows and [w] columns: the patch of half-width [half]
    centred on it does not fit in the image. *)
Definition near_border (h w half y x : Z) : Prop :=
  y < half ∨ h - half ≤ y ∨ x < half ∨ w - half ≤ x.

(** Every sample of the mask is above the threshold of 128. *)
Definition fully_masked (mask : Mask) : Prop :=
  ∀ y x, 0 ≤ y < nrows mask → 0 ≤ x < ncols mask → 128 < at2 mask y x.

(** Every patch kept as [best_patch] is a full patch of half-width
    [half]. *)
Definition full_patch (half : Z) (best : ContentAwareFill.best_t) : Prop :=
  ∀ p, snd best = Some p → nrows p = 2 * half + 1 ∧ ncols p = 2 * half + 1.

(** The number of cells of [visited] that are still [False]. *)
Definition unvisited (visited : ndarray bool) : nat :=
  sum_list_with
    (λ row, sum_list_with (λ b : bool, if b then 0%nat else 1%nat) row)
    (elems visited).

(** The lists of an array have the lengths its shape announces. *)
Definition rectangular {A} (a : ndarray A) : Prop :=
  length (elems a) = Z.to_nat (nrows a) ∧
  Forall (λ r, length r = Z.to_nat (ncols a)) (elems a).

(** The cell at row [y], column [x] exists. *)
Definition in_bounds {A} (a : ndarray A) (y x : Z) : Prop :=
  0 ≤ y < nrows a ∧ 0 ≤ x < ncols a.

(** The four points [stack.extend] pushes for the point [(x, y)]. *)
Definition neighbours (p : Z * Z) : list (Z * Z) :=
  let '(x, y) := p in [(x, y - 1); (x, y + 1); (x - 1, y); (x + 1, y)].

(** The invariant of the flood-fill loop: marked cells are selected,
    every neighbour of a marked cell is marked or waits on the stack, and
    so does the seed. *)
Definition flood_inv (img_array : ndarray rgb) (start : Z * Z)
    (stack : list (Z * Z)) (visited : ndarray bool) (mask : ndarray Z) : Prop :=
  rectangular visited ∧ rectangular mask ∧
  same_shape visited img_array ∧ same_shape mask img_array ∧
  (∀ y x, in_bounds img_array y x →
          at2 visited y x = true → at2 mask y x = 255) ∧
  (∀ y x q, in_bounds img_array y x → at2 visited y x = true →
            q ∈ neighbours (x, y) → in_bounds img_array (snd q) (fst q) →
            at2 visited (snd q) (fst q) = true ∨ q ∈ stack) ∧
  (at2 visited (snd start) (fst start) = true ∨ start ∈ stack).

(** The modes that paint a colour: ['white'], ['black'] and the colour
    tuples of three or four components. *)
Definition solid_mode (erase_mode : MagicEraser.erase_mode_t) : Prop :=
  match erase_mode with
  | MagicEraser.ModeStr s => s = "white" ∨ s = "black"
  | MagicEraser.ModeTuple c => length c = 3%nat ∨ length c = 4%nat
  end.

(** The colour a solid erase mode paints; a tuple paints one only when
    each of its components lies in 0..255.  ['transparent'], unrecognised
    modes and tuples with a component out of that range paint none. *)
Definition solid_colour (erase_mode : MagicEraser.erase_mode_t) : option rgba :=
  match erase_mode with
  | MagicEraser.ModeStr s =>
      if String.eqb s "white" then Some (255, 255, 255, 255)
      else if String.eqb s "black" then Some (0, 0, 0, 255)
      else None
  | MagicEraser.ModeTuple [r; g; b] =>
      if forallb MagicEraser.is_uint8 [r; g; b]
      then Some (r, g, b, 255) else None
  | MagicEraser.ModeTuple [r; g; b; a] =>
      if forallb MagicEraser.is_uint8 [r; g; b; a]
      then Some (r, g, b, a) else None
  | MagicEraser.ModeTuple _ => None
  end.

(** A colour tuple of three or four components, one of which lies outside
    0..255. *)
Definition colour_out_of_range (erase_mode : MagicEraser.erase_mode_t) : Prop :=
  match erase_mode with
  | MagicEraser.ModeStr _ => False
  | MagicEraser.ModeTuple c =>
      (length c = 3%nat ∨ length c = 4%nat)
      ∧ forallb MagicEraser.is_uint8 c = false
  end.

(** No sample of the mask is above the threshold of 128. *)
Definition nothing_selected (mask : Mask) : Prop :=
  ∀ y x, 0 ≤ y < nrows mask → 0 ≤ x < ncols mask → at2 mask y x ≤ 128.

(** The pixel at [(y, x)] passes the colour test of the selection, as the
    code computes it: the differences of the channels and their squares
    are [uint8] values and wrap modulo 256, and their sum is compared with
    the square of the tolerance.  Because of the wrap-around this is not
    the Euclidean distance: a pixel that differs from the target by 16 in
    a channel has the wrapped square 0 and passes at any tolerance that
    is not negative. *)
Definition passes_colour_test (img_array : ndarray rgb) (target_color : rgb)
    (tol y x : Z) : Prop :=
  MagicEraser.within_tolerance (sum_sq (at2 img_array y x) target_color) tol
  = true.

(** Two colours whose channels differ by multiples of 16. *)
Definition differ_by_sixteens (c t : rgb) : Prop :=
  let '(r1, g1, b1) := c in
  let '(r2, g2, b2) := t in
  (16 | r1 - r2) ∧ (16 | g1 - g2) ∧ (16 | b1 - b2).

(** The invariant of the flood-fill loop on the mask alone: a cell is
    255 and passes the colour test, or 0. *)
Definition flood_sound (img_array : ndarray rgb) (target_color : rgb) (tol : Z)
    (mask : ndarray Z) : Prop :=
  rectangular mask ∧ same_shape mask img_array ∧
  ∀ y x, in_bounds img_array y x →
         (at2 mask y x = 255 ∧ passes_colour_test img_array target_color tol y x)
         ∨ at2 mask y x = 0.

(** A candidate position of the patch search: an unmasked pixel whose
    full patch lies in the image. *)
Definition candidate_centre (image : ndarray rgb) (mask : ndarray bool)
    (half sy sx : Z) : Prop :=
  half ≤ sy < nrows image - half ∧ half ≤ sx < ncols image - half ∧
  at2 mask sy sx = false.

(** Every patch kept as [best_patch] is the full patch around a candidate
    position. *)
Definition patch_of_candidate (image : ndarray rgb) (mask : ndarray bool)
    (half : Z) (best : ContentAwareFill.best_t) : Prop :=
  ∀ p, snd best = Some p →
       ∃ sy sx, candidate_centre image mask half sy sx ∧
                p = np_slice2 image (sy - half) (sy + half + 1)
                                    (sx - half) (sx + half + 1).

(** Two shapes that NumPy cannot broadcast: on some axis the lengths
    differ and neither is 1. *)
Definition incompatible_shapes {A B} (a : ndarray A) (b : ndarray B) : Prop :=
  (nrows a ≠ nrows b ∧ nrows a ≠ 1 ∧ nrows b ≠ 1) ∨
  (ncols a ≠ ncols b ∧ ncols a ≠ 1 ∧ ncols b ≠ 1).

(** Every pixel of the image in the patch window around [(y, x)] is
    masked. *)
Definition window_masked (mask : Mask) (half y x : Z) : Prop :=
  ∀ y' x', 0 ≤ y' < nrows mask → 0 ≤ x' < ncols mask →
           y - half ≤ y' ≤ y + half → x - half ≤ x' ≤ x + half →
           128 < at2 mask y' x'.

(** A crop box that lies inside an image of the given size. *)
Definition box_inside (width height : Z) (box : Z * Z * Z * Z) : Prop :=
  let '(x1, y1, x2, y2) := box in
  0 ≤ x1 ∧ x1 ≤ x2 ∧ x2 ≤ width ∧ 0 ≤ y1 ∧ y1 ≤ y2 ∧ y2 ≤ height.

(** The whole image, or a window of more than half the image in each
    dimension. *)
Definition box_large (width height : Z) (box : Z * Z * Z * Z) : Prop :=
  let '(x1, y1, x2, y2) := box in
  box = (0, 0, width, height)
  ∨ (width `div` 2 < x2 - x1 ∧ height `div` 2 < y2 - y1).

(** The edge map shows no edge. *)
Definition no_edges (edges : ndarray Z) : Prop :=
  Forall (Forall (λ v, v = 0)) (elems edges).

(** * Properties *)

(** ** Arrays *)

Section ArrayFacts.

Context {A : Type} `{!Inhabited A}.

Lemma lookup_total_py_range (n : Z) (i : Z) :
  0 ≤ i < n → py_range 0 n !!! Z.to_nat i = i.
Proof.
  intros Hi. unfold py_range.
  rewrite lookup_total_seqZ_lt by lia. lia.
Qed.

Lemma length_py_range (lo hi : Z) :
  length (py_range lo hi) = Z.to_nat (hi - lo).
Proof. unfold py_range. apply length_seqZ. Qed.

Lemma lookup_fmap_py_range {B} (g : Z → B) (n i : Z) :
  0 ≤ i < n → (g <$> py_range 0 n) !! Z.to_nat i = Some (g i).
Proof.
  intros Hi. unfold py_range.
  rewrite list_lookup_fmap, lookup_seqZ_lt by lia. simpl.
  do 2 f_equal. lia.
Qed.

Lemma lookup_total_fmap_py_range {B} `{!Inhabited B} (g : Z → B) (n i : Z) :
  0 ≤ i < n → (g <$> py_range 0 n) !!! Z.to_nat i = g i.
Proof.
  intros Hi. by rewrite list_lookup_total_alt, lookup_fmap_py_range.
Qed.

Lemma at2_tabulate (r c : Z) (f : Z → Z → A) (y x : Z) :
  0 ≤ y < r → 0 ≤ x < c → at2 (np_tabulate r c f) y x = f y x.
Proof.
  intros Hy Hx. unfold at2, np_tabulate. cbn [elems].
  by rewrite !lookup_total_fmap_py_range.
Qed.

Lemma wf_tabulate (r c : Z) (f : Z → Z → A) :
  0 ≤ r → 0 ≤ c → wf_array (np_tabulate r c f).
Proof.
  intros Hr Hc. unfold wf_array, np_tabulate. simpl.
  repeat split; try done.
  - rewrite length_fmap, length_py_range. f_equal. lia.
  - apply Forall_fmap, Forall_forall. intros y _. simpl.
    rewrite length_fmap, length_py_range. f_equal. lia.
Qed.

Lemma bidx_in_range (d i : Z) : 0 ≤ i < d → bidx d i = i.
Proof. unfold bidx. intros Hi. destruct (Z.eqb_spec d 1); lia. Qed.

Lemma bdim_same (d : Z) : bdim d d = Ok d.
Proof. unfold bdim. by rewrite Z.eqb_refl. Qed.

Lemma wf_np_full (h w : Z) (v : A) : 0 ≤ h → 0 ≤ w → wf_array (np_full h w v).
Proof.
  intros Hh Hw. unfold wf_array, np_full. simpl.
  repeat split; try done.
  - by rewrite length_replicate.
  - apply Forall_replicate. by rewrite length_replicate.
Qed.

Lemma at2_np_full (h w : Z) (v : A) (y x : Z) :
  0 ≤ y < h → 0 ≤ x < w → at2 (np_full h w v) y x = v.
Proof.
  intros Hy Hx. unfold at2, np_full. simpl.
  rewrite !lookup_total_replicate_2 by lia. done.
Qed.

Lemma at2_np_map {B} `{!Inhabited B} (f : A → B) (a : ndarray A) (y x : Z) :
  wf_array a → 0 ≤ y < nrows a → 0 ≤ x < ncols a →
  at2 (np_map f a) y x = f (at2 a y x).
Proof.
  intros (Hr & Hc & Hlen & Hrows) Hy Hx. unfold at2, np_map. cbn [elems].
  assert (Z.to_nat y < length (elems a))%nat as Hlt by lia.
  apply lookup_lt_is_Some_2 in Hlt as [row Hrow].
  assert (length row = Z.to_nat (ncols a)) as Hlr.
  { rewrite Forall_forall in Hrows. apply Hrows.
    eapply list_elem_of_lookup_2; done. }
  assert (Z.to_nat x < length row)%nat as Hlt by lia.
  apply lookup_lt_is_Some_2 in Hlt as [v Hv].
  rewrite (list_lookup_total_alt (_ <$> elems a)), list_lookup_fmap, Hrow.
  rewrite (list_lookup_total_alt (elems a)), Hrow. simpl.
  by rewrite !list_lookup_total_alt, list_lookup_fmap, Hv.
Qed.

Lemma wf_np_map {B} (f : A → B) (a : ndarray A) :
  wf_array a → wf_array (np_map f a).
Proof.
  intros (Hr & Hc & Hlen & Hrows). unfold wf_array, np_map. simpl.
  repeat split; try done.
  - by rewrite length_fmap.
  - apply Forall_fmap. eapply Forall_impl; [done|].
    intros r Hlr. simpl. by rewrite length_fmap.
Qed.

(** A pointwise operation that fixes every sample fixes the array. *)
Lemma np_map_id_on (P : A → Prop) (f : A → A) (a : ndarray A) :
  (∀ v, P v → f v = v) → Forall (Forall P) (elems a) → np_map f a = a.
Proof.
  intros Hf Hall. destruct a as [r c rows]. unfold np_map. simpl in *.
  f_equal. induction Hall as [|row rows' Hrow _ IH]; [done|].
  csimpl. f_equal; [|done].
  clear IH. induction Hrow as [|v row' Hv _ IH]; [done|].
  csimpl. by rewrite Hf, IH.
Qed.

Lemma np_map_compose {B C} (f : A → B) (g : B → C) (a : ndarray A) :
  np_map g (np_map f a) = np_map (g ∘ f) a.
Proof.
  unfold np_map. simpl. f_equal.
  rewrite <- list_fmap_compose. apply list_fmap_ext. intros _ row _. simpl.
  by rewrite <- list_fmap_compose.
Qed.

End ArrayFacts.

Lemma nrows_to_rgb (im : Image) : nrows (to_rgb im) = height im.
Proof. by destruct im. Qed.

Lemma ncols_to_rgb (im : Image) : ncols (to_rgb im) = width im.
Proof. by destruct im. Qed.

Lemma nrows_to_rgba (im : Image) : nrows (to_rgba im) = height im.
Proof. by destruct im. Qed.

Lemma ncols_to_rgba (im : Image) : ncols (to_rgba im) = width im.
Proof. by destruct im. Qed.

Lemma u8_id (v : Z) : 0 ≤ v < 256 → u8 v = v.
Proof. intros Hv. unfold u8. by apply Z.mod_small. Qed.

(** ** The selection algebra *)

Section SelectionAlgebra.

Import AdvancedSelectionTools.

(** Inverting a [uint8] sample twice gives it back. *)
Lemma invert_sample_twice (v : Z) :
  0 ≤ v < 256 → u8 (255 - u8 (255 - v)) = v.
Proof.
  intros Hv. unfold u8.
  rewrite (Z.mod_small (255 - v)) by lia.
  rewrite Z.mod_small by lia. lia.
Qed.

(** With masks of one shape the symmetric difference is, at every
    pixel, the [uint8] difference [m1 - m2] taken modulo 256. *)
Lemma combine_symmetric_difference_pointwise (m1 m2 : Mask) :
  same_shape m1 m2 →
  ∃ out, combine_selections m1 m2 "symmetric_difference" = Ok out ∧
         same_shape out m1 ∧
         ∀ y x, 0 ≤ y < nrows m1 → 0 ≤ x < ncols m1 →
                at2 out y x = (at2 m1 y x - at2 m2 y x) mod 256.
Proof.
  intros [Hr Hc]. unfold combine_selections, np_broadcast2. simpl.
  rewrite <- Hr, <- Hc, !bdim_same. simpl.
  eexists. split; [done|]. split; [done|].
  intros y x Hy Hx.
  rewrite at2_np_map; [|apply wf_tabulate; lia|simpl; lia|simpl; lia].
  rewrite at2_tabulate by done.
  rewrite !bidx_in_range by done.
  unfold u8. rewrite Z.abs_eq by (apply Z.mod_pos_bound; lia).
  by rewrite Z.mod_mod.
Qed.

End SelectionAlgebra.

(** C9: for every mask [m] (a single-channel array of [uint8] samples),
    [invert_selection (invert_selection m)] is [m]: the pointwise
    [255 - value], applied twice, is the identity. *)
Theorem invert_selection_involutive (m : Mask) :
  wf_mask m →
  AdvancedSelectionTools.invert_selection
    (AdvancedSelectionTools.invert_selection m) = m.
Proof.
  intros [_ Hsamples]. unfold AdvancedSelectionTools.invert_selection.
  rewrite np_map_compose.
  apply (np_map_id_on (λ v, 0 ≤ v < 256)); [|done].
  intros v Hv. simpl. by apply invert_sample_twice.
Qed.

Lemma invert_selection_involutive_witness :
  let m : Mask := NDArray 2 2 [[0; 255]; [128; 7]] in
  wf_mask m ∧
  AdvancedSelectionTools.invert_selection
    (AdvancedSelectionTools.invert_selection m) = m.
Proof.
  assert (wf_mask (NDArray 2 2 [[0; 255]; [128; 7]])) as Hwf.
  { split; [unfold wf_array; simpl; repeat split; try lia|];
      repeat constructor; lia. }
  split; [exact Hwf|].
  exact (invert_selection_involutive _ Hwf).
Defined.

(** C2, at the input where the code departs from it: for the one-pixel
    masks [0] and [255], ['symmetric_difference'] returns [1], the
    [uint8] wrap-around of [0 - 255], while the absolute difference of
    the two samples is [255]. *)
Theorem combine_symmetric_difference_wraps :
  AdvancedSelectionTools.combine_selections
    (NDArray 1 1 [[0]]) (NDArray 1 1 [[255]]) "symmetric_difference"
  = Ok (NDArray 1 1 [[1]])
  ∧ Z.abs (0 - 255) = 255.
Proof. split; reflexivity. Qed.

(** ** Fallbacks for unrecognised enumeration values *)

Lemma eqb_other (s t : string) : s ≠ t → String.eqb s t = false.
Proof. intros Hne. by apply String.eqb_neq. Qed.

Lemma combine_selections_unknown (mask1 mask2 : Mask) (operation : string) :
  wf_mask mask1 → ¬ known_operation operation →
  AdvancedSelectionTools.combine_selections mask1 mask2 operation = Ok mask1.
Proof.
  intros [_ Hsamples] Hop. unfold AdvancedSelectionTools.combine_selections.
  unfold known_operation in Hop.
  rewrite !eqb_other by tauto. simpl. f_equal.
  apply (np_map_id_on (λ v, 0 ≤ v < 256)); [|done].
  intros v Hv. by apply u8_id.
Qed.

Lemma erase_selection_unknown (image : Image) (mask : Mask)
    (erase_mode : MagicEraser.erase_mode_t) :
  ¬ known_erase_mode erase_mode →
  MagicEraser.erase_selection image mask erase_mode
  = Ok (ImgRGBA (to_rgba image)).
Proof.
  intros Hmode. unfold MagicEraser.erase_selection.
  destruct erase_mode as [s|c]; simpl in Hmode.
  - by rewrite !eqb_other by tauto.
  - rewrite bool_decide_eq_false_2 by done. done.
Qed.

(** C4, the counterexample: an 'RGB' image erased with an unknown mode
    comes back as an 'RGBA' image, which is not the image passed in. *)
Lemma erase_selection_unknown_promotes :
  let image := ImgRGB (NDArray 1 1 [[(1, 2, 3)]]) in
  MagicEraser.erase_selection image (NDArray 1 1 [[255]])
                              (MagicEraser.ModeStr "blur")
  ≠ Ok image.
Proof. intros image H. vm_compute in H. discriminate H. Qed.

(** C4, amended: an unrecognised enumeration value never raises and
    modifies no sample.  [combine_selections] with an unknown operation
    returns [mask1]; [auto_crop] with an unknown rule returns the image;
    [erase_selection] with an unknown mode returns the image promoted to
    'RGBA', which is the image itself when it already is 'RGBA'. *)
Theorem unknown_enum_falls_back
    (thirds golden center : Image → Image)
    (mask1 mask2 mask : Mask) (image : Image)
    (operation composition_rule : string)
    (erase_mode : MagicEraser.erase_mode_t) :
  wf_mask mask1 →
  ¬ known_operation operation →
  ¬ known_rule composition_rule →
  ¬ known_erase_mode erase_mode →
  AdvancedSelectionTools.combine_selections mask1 mask2 operation = Ok mask1
  ∧ SmartCrop.auto_crop thirds golden center image composition_rule = image
  ∧ MagicEraser.erase_selection image mask erase_mode
    = Ok (ImgRGBA (to_rgba image))
  ∧ (mode image = RGBA →
     MagicEraser.erase_selection image mask erase_mode = Ok image).
Proof.
  intros Hwf Hop Hrule Hmode. repeat split.
  - by apply combine_selections_unknown.
  - unfold SmartCrop.auto_crop. unfold known_rule in Hrule.
    by rewrite !eqb_other by tauto.
  - by apply erase_selection_unknown.
  - intros Hrgba. rewrite erase_selection_unknown by done.
    by destruct image.
Qed.

Lemma unknown_enum_falls_back_witness :
  let mask1 : Mask := NDArray 1 2 [[0; 255]] in
  let mask2 : Mask := NDArray 1 2 [[9; 9]] in
  let image := ImgRGBA (NDArray 1 2 [[(1, 2, 3, 4); (5, 6, 7, 8)]]) in
  let erase_mode := MagicEraser.ModeTuple [1; 2] in
  AdvancedSelectionTools.combine_selections mask1 mask2 "xor" = Ok mask1
  ∧ SmartCrop.auto_crop id id id image "square" = image
  ∧ MagicEraser.erase_selection image mask2 erase_mode
    = Ok (ImgRGBA (to_rgba image))
  ∧ (mode image = RGBA →
     MagicEraser.erase_selection image mask2 erase_mode = Ok image).
Proof.
  apply (unknown_enum_falls_back id id id).
  - split; [unfold wf_array; simpl; repeat split; try lia|];
      repeat constructor; lia.
  - unfold known_operation. intros [H|[H|[H|H]]]; discriminate H.
  - unfold known_rule. intros [H|[H|H]]; discriminate H.
  - simpl. lia.
Defined.

(** ** Erasing a selection *)

(** C5: with a mask of the image's size, [erase_selection] in mode
    ['transparent'] succeeds and returns an 'RGBA' image of the same
    size in which, relative to the image promoted to 'RGBA', the alpha of
    a pixel is 0 where the mask is above 128 and unchanged elsewhere, and
    the R, G and B samples of every pixel are unchanged. *)
Theorem erase_transparent_sets_alpha (image : Image) (mask : Mask) :
  mask_fits mask image →
  ∃ out : ndarray rgba,
    MagicEraser.erase_selection image mask (MagicEraser.ModeStr "transparent")
    = Ok (ImgRGBA out)
    ∧ nrows out = height image ∧ ncols out = width image
    ∧ ∀ y x, 0 ≤ y < height image → 0 ≤ x < width image →
        let '(r, g, b, a) := at2 (to_rgba image) y x in
        at2 out y x = (r, g, b, if 128 <? at2 mask y x then 0 else a).
Proof.
  intros [Hr Hc]. unfold MagicEraser.erase_selection, np_broadcast2. simpl.
  rewrite <- nrows_to_rgba in Hr. rewrite <- ncols_to_rgba in Hc.
  rewrite <- nrows_to_rgba, <- ncols_to_rgba.
  rewrite Hr, Hc, !bdim_same. simpl.
  unfold np_assign. simpl. rewrite !Z.eqb_refl. simpl.
  eexists. split; [done|]. split; [done|]. split; [done|].
  intros y x Hy Hx.
  rewrite at2_tabulate by done.
  rewrite !bidx_in_range by done.
  rewrite at2_tabulate by done.
  rewrite !bidx_in_range by lia.
  by destruct (at2 (to_rgba image) y x) as [[[r g] b] a].
Qed.

Lemma erase_transparent_sets_alpha_witness :
  let image := ImgRGB (NDArray 1 2 [[(1, 2, 3); (4, 5, 6)]]) in
  let mask : Mask := NDArray 1 2 [[200; 128]] in
  mask_fits mask image ∧
  ∃ out : ndarray rgba,
    MagicEraser.erase_selection image mask (MagicEraser.ModeStr "transparent")
    = Ok (ImgRGBA out)
    ∧ nrows out = height image ∧ ncols out = width image
    ∧ ∀ y x, 0 ≤ y < height image → 0 ≤ x < width image →
        let '(r, g, b, a) := at2 (to_rgba image) y x in
        at2 out y x = (r, g, b, if 128 <? at2 mask y x then 0 else a).
Proof.
  assert (mask_fits (NDArray 1 2 [[200; 128]])
                    (ImgRGB (NDArray 1 2 [[(1, 2, 3); (4, 5, 6)]]))) as Hfit
    by (split; reflexivity).
  split; [exact Hfit|].
  exact (erase_transparent_sets_alpha _ _ Hfit).
Defined.

(** ** Seed points outside the image *)

(** C7: for a seed point outside the image, whatever the tolerance and
    the contiguous flag, [magic_select] returns, without raising, the
    mask of the image's dimensions whose samples are all zero. *)
Theorem magic_select_out_of_bounds
    (GaussianBlur : ndarray Z → Z * Z → Q → ndarray Z)
    (self : MagicEraser.t) (image : Image) (point : Z * Z)
    (tolerance : option Z) (contiguous : option bool) :
  out_of_bounds image point →
  MagicEraser.magic_select GaussianBlur self image point tolerance contiguous
  = Some (Image_new_L (size image) 0)
  ∧ nrows (Image_new_L (size image) 0) = height image
  ∧ ncols (Image_new_L (size image) 0) = width image
  ∧ Forall (Forall (λ v, v = 0)) (elems (Image_new_L (size image) 0)).
Proof.
  intros Hout. unfold MagicEraser.magic_select.
  rewrite nrows_to_rgb, ncols_to_rgb.
  assert ((fst point >=? width image) || (snd point >=? height image)
          || (fst point <? 0) || (snd point <? 0) = true) as ->.
  { unfold out_of_bounds in Hout.
    rewrite !orb_true_iff, !Z.geb_le, !Z.ltb_lt. lia. }
  repeat split.
  unfold Image_new_L, np_full. simpl.
  apply Forall_replicate, Forall_replicate. done.
Qed.

Lemma magic_select_out_of_bounds_witness :
  let image := ImgRGB (NDArray 1 2 [[(1, 2, 3); (4, 5, 6)]]) in
  let blur := λ (m : ndarray Z) (_ : Z * Z) (_ : Q), m in
  out_of_bounds image (2, 0) ∧
  MagicEraser.magic_select blur MagicEraser.init image (2, 0) (Some 10) None
  = Some (Image_new_L (size image) 0).
Proof.
  assert (out_of_bounds (ImgRGB (NDArray 1 2 [[(1, 2, 3); (4, 5, 6)]])) (2, 0))
    as Hout by (unfold out_of_bounds; simpl; lia).
  split; [exact Hout|].
  exact (proj1 (magic_select_out_of_bounds _ MagicEraser.init _ _ (Some 10) None Hout)).
Defined.

(** ** Resizing with a crop *)

(** C8: on a 200x200 image, [smart_resize_crop] with target size
    (100, 50) and focus point (100, 100) crops to the box
    (0, 50, 200, 150), that is the full width of 200 and a height of 100
    at vertical offset 50, and returns an image of size exactly
    (100, 50).  The box is the one the float arithmetic of the code
    computes; the call is the resize of the crop of the image at that
    box; the crop succeeds and has size (200, 100); and the resize of
    that cropped image is the result, of size (100, 50). *)
Theorem smart_resize_crop_scenario
    (lanczos : ∀ A : Type, ndarray A → Z * Z → list (list A)) (image : Image) :
  size image = (200, 200) →
  SmartCrop.crop_box (size image) (100, 50) (Some (100, 100))
  = Ok (0, 50, 200, 150)
  ∧ SmartCrop.smart_resize_crop lanczos image (100, 50) (Some (100, 100))
    = (cropped ← SmartCrop.crop image (0, 50, 200, 150);
       SmartCrop.resize lanczos cropped (100, 50))
  ∧ ∃ cropped out,
      SmartCrop.crop image (0, 50, 200, 150) = Ok cropped
      ∧ size cropped = (200, 100)
      ∧ mode cropped = mode image
      ∧ SmartCrop.resize lanczos cropped (100, 50) = Ok out
      ∧ SmartCrop.smart_resize_crop lanczos image (100, 50) (Some (100, 100))
        = Ok out
      ∧ size out = (100, 50)
      ∧ mode out = mode image.
Proof.
  intros Hsize. unfold SmartCrop.smart_resize_crop. rewrite Hsize.
  assert (SmartCrop.crop_box (200, 200) (100, 50) (Some (100, 100))
          = Ok (0, 50, 200, 150)) as Hbox by reflexivity.
  rewrite Hbox. split; [reflexivity|]. split; [reflexivity|].
  destruct image; do 2 eexists; repeat (split; [reflexivity|]); reflexivity.
Qed.

Lemma smart_resize_crop_scenario_witness :
  let image := ImgRGB (np_full 200 200 (255, 0, 0)) in
  let lanczos := λ (A : Type) (_ : ndarray A) (_ : Z * Z), @nil (list A) in
  size image = (200, 200) ∧
  SmartCrop.crop_box (size image) (100, 50) (Some (100, 100))
  = Ok (0, 50, 200, 150).
Proof.
  assert (size (ImgRGB (np_full 200 200 (255, 0, 0))) = (200, 200)) as Hsize
    by reflexivity.
  split; [exact Hsize|].
  exact (proj1 (smart_resize_crop_scenario (λ A _ _, []) _ Hsize)).
Defined.

(** ** Loops that may raise *)

Section FoldM.

Context {A S : Type} (f : S → A → result S).

(** An invariant kept by every iteration is kept by the loop, and the
    loop does not raise. *)
Lemma foldM_invariant (P : S → Prop) (Q : A → Prop) (s : S) (l : list A) :
  P s → Forall Q l →
  (∀ s a, P s → Q a → ∃ s', f s a = Ok s' ∧ P s') →
  ∃ s', foldM f s l = Ok s' ∧ P s'.
Proof.
  intros Hs Hl Hstep. revert s Hs.
  induction Hl as [|a l Ha _ IH]; intros s Hs; simpl.
  - by exists s.
  - destruct (Hstep s a Hs Ha) as (s' & -> & Hs'). simpl. by apply IH.
Qed.

(** A loop whose iterations all leave the state [s] alone returns [s]. *)
Lemma foldM_fixed (s : S) (l : list A) :
  Forall (λ a, f s a = Ok s) l → foldM f s l = Ok s.
Proof.
  induction 1 as [|a l Ha _ IH]; simpl; [done|].
  rewrite Ha. simpl. done.
Qed.

End FoldM.

Lemma Forall_py_range (lo hi : Z) : Forall (λ v, lo ≤ v < hi) (py_range lo hi).
Proof. unfold py_range. apply Forall_seqZ. lia. Qed.

Lemma np_index_in_range (n i : Z) : 0 ≤ i < n → np_index n i = Ok (Z.to_nat i).
Proof.
  intros Hi. unfold np_index.
  destruct (Z.leb_spec 0 i), (Z.ltb_spec i n); simpl; done || lia.
Qed.

Lemma np_get2_in_range {A} `{!Inhabited A} (a : ndarray A) (y x : Z) :
  0 ≤ y < nrows a → 0 ≤ x < ncols a → np_get2 a y x = Ok (at2 a y x).
Proof.
  intros Hy Hx. unfold np_get2. by rewrite !np_index_in_range.
Qed.

Lemma np_set2_in_range {A} (a : ndarray A) (y x : Z) (v : A) :
  0 ≤ y < nrows a → 0 ≤ x < ncols a → np_set2 a y x v = Ok (set2 a y x v).
Proof.
  intros Hy Hx. unfold np_set2. by rewrite !np_index_in_range.
Qed.

(** Writing one element leaves every other element as it was. *)
Lemma at2_set2_other {A} `{!Inhabited A} (a : ndarray A) (y x y' x' : Z) (v : A) :
  0 ≤ y → 0 ≤ x → 0 ≤ y' → 0 ≤ x' → (y', x') ≠ (y, x) →
  at2 (set2 a y x v) y' x' = at2 a y' x'.
Proof.
  intros Hy Hx Hy' Hx' Hne. unfold at2, set2. cbn [elems].
  destruct (decide (y = y')) as [<-|Hyy].
  - assert (x ≠ x') as Hxx by congruence.
    rewrite (list_lookup_total_alter (λ r, <[Z.to_nat x:=v]> r)).
    case_decide; [|done].
    apply list_lookup_total_insert_ne. lia.
  - by rewrite list_lookup_total_alter_ne by lia.
Qed.

Lemma slice_len_inside (n lo hi : Z) :
  0 ≤ lo → lo ≤ hi → hi ≤ n → slice_len n lo hi = hi - lo.
Proof.
  intros Hlo Hle Hhi. unfold slice_len, slice_bound.
  destruct (Z.ltb_spec hi 0), (Z.ltb_spec lo 0); lia.
Qed.

(** The coordinates that [np.where] yields lie in the array. *)
Lemma np_where_in_range (m : ndarray bool) :
  Forall (λ yx, 0 ≤ fst yx < nrows m ∧ 0 ≤ snd yx < ncols m) (np_where m).
Proof.
  apply Forall_forall. intros [y x] Hin. unfold np_where in Hin.
  apply list_elem_of_bind in Hin as (y0 & Hin & Hy0).
  apply list_elem_of_bind in Hin as (x0 & Hin & Hx0).
  unfold py_range in Hy0, Hx0.
  apply elem_of_seqZ in Hy0. apply elem_of_seqZ in Hx0.
  destruct (at2 m y0 x0).
  - apply list_elem_of_singleton in Hin. injection Hin as -> ->. simpl. lia.
  - by apply elem_of_nil in Hin.
Qed.

(** ** Patch-based fill *)

Section PatchMatch.

Import ContentAwareFill.

Variables (image : ndarray rgb) (mask : ndarray bool) (patch_size : Z).
Hypothesis Hshape : same_shape mask image.
Hypothesis Hsize : 0 ≤ patch_size.

Let half := patch_size `div` 2.

Lemma half_nonneg : 0 ≤ half.
Proof. subst half. apply Z.div_pos; lia. Qed.

Section Target.

Variables (y1 y2 x1 x2 : Z).

Let target_patch := np_slice2 image y1 y2 x1 x2.
Let target_mask := np_slice2 mask y1 y2 x1 x2.

(** One candidate position: the body never raises. *)
Lemma try_candidate_ok (sy sx : Z) (best : best_t) :
  half ≤ sy < nrows image - half → half ≤ sx < ncols image - half →
  full_patch half best →
  ∃ best', try_candidate image mask target_patch target_mask
                         half sy sx best = Ok best'
           ∧ full_patch half best'.
Proof.
  intros Hsy Hsx Hbest. pose proof half_nonneg as Hhalf.
  destruct Hshape as [Hr Hc].
  unfold try_candidate.
  rewrite np_get2_in_range by lia. simpl.
  destruct (at2 mask sy sx); [by exists best|].
  set (candidate := np_slice2 image _ _ _ _).
  destruct (shape_eqb candidate target_patch) eqn:Hcand; simpl;
    [|by exists best].
  destruct (np_any _); [|by exists best].
  assert (shape_eqb (np_map negb target_mask) candidate = true) as Hvc.
  { unfold shape_eqb in *. subst target_mask target_patch. simpl in *.
    rewrite Hr, Hc.
    apply andb_true_iff in Hcand as [H1 H2].
    apply Z.eqb_eq in H1, H2. rewrite <- H1, <- H2, !Z.eqb_refl. done. }
  assert (shape_eqb (np_map negb target_mask) target_patch = true) as Hvt.
  { unfold shape_eqb. subst target_mask target_patch. simpl.
    rewrite Hr, Hc, !Z.eqb_refl. done. }
  unfold np_bool_select. rewrite Hvc, Hvt. simpl.
  match goal with |- context [if ?c then _ else _] => destruct c end;
    [|by exists best].
  eexists. split; [done|].
  intros p [= <-]. subst candidate. simpl.
  rewrite !slice_len_inside by lia. lia.
Qed.

(** A position that is masked, or whose patch has another shape than
    the target patch, leaves [(best_score, best_patch)] alone. *)
Lemma try_candidate_skips (sy sx : Z) (best : best_t) :
  half ≤ sy < nrows image - half → half ≤ sx < ncols image - half →
  at2 mask sy sx = true ∨
  nrows target_patch ≠ 2 * half + 1 ∨ ncols target_patch ≠ 2 * half + 1 →
  try_candidate image mask target_patch target_mask half sy sx best
  = Ok best.
Proof.
  intros Hsy Hsx Hskip. pose proof half_nonneg as Hhalf.
  destruct Hshape as [Hr Hc].
  unfold try_candidate.
  rewrite np_get2_in_range by lia. simpl.
  destruct (at2 mask sy sx) eqn:Hm; [done|].
  destruct Hskip as [Hskip|Hskip]; [done|].
  assert (shape_eqb
            (np_slice2 image (sy - half) (sy + half + 1)
                             (sx - half) (sx + half + 1))
            target_patch = false) as ->; [|done].
  unfold shape_eqb. cbn [nrows ncols np_slice2].
  rewrite !slice_len_inside by lia.
  apply andb_false_iff.
  destruct Hskip as [Hne|Hne]; [left|right]; apply Z.eqb_neq; lia.
Qed.

End Target.

(** The search returns, without raising, [None] or a full patch. *)
Lemma find_best_patch_ok (target_pos : Z * Z) :
  ∃ r, _find_best_patch image mask target_pos patch_size = Ok r
       ∧ ∀ p, r = Some p → nrows p = 2 * half + 1 ∧ ncols p = 2 * half + 1.
Proof.
  destruct target_pos as [x y]. unfold _find_best_patch. fold half.
  match goal with
  | |- context [foldM ?f ?s ?l] =>
      destruct (foldM_invariant f (full_patch half)
                  (λ sy, half ≤ sy < nrows image - half) s l)
        as (best & Hfold & Hbest)
  end.
  - intros p Hp. discriminate Hp.
  - apply Forall_py_range.
  - intros best sy Hbest Hsy.
    apply (foldM_invariant _ (full_patch half)
             (λ sx, half ≤ sx < ncols image - half)); [done| |].
    + apply Forall_py_range.
    + intros best' sx Hbest' Hsx. by apply try_candidate_ok.
  - rewrite Hfold. simpl. exists (snd best). split; [done|].
    intros p Hp. by apply Hbest.
Qed.

(** When every candidate position is skipped, no patch is found. *)
Lemma find_best_patch_none (x y : Z) :
  (∀ sy sx,
     half ≤ sy < nrows image - half → half ≤ sx < ncols image - half →
     at2 mask sy sx = true ∨
     slice_len (nrows image) (Z.max 0 (y - half))
               (Z.min (nrows image) (y + half + 1)) ≠ 2 * half + 1 ∨
     slice_len (ncols image) (Z.max 0 (x - half))
               (Z.min (ncols image) (x + half + 1)) ≠ 2 * half + 1) →
  _find_best_patch image mask (x, y) patch_size = Ok None.
Proof.
  intros Hskip. unfold _find_best_patch. fold half.
  rewrite foldM_fixed; [done|].
  eapply Forall_impl; [apply Forall_py_range|].
  intros sy Hsy. simpl.
  apply foldM_fixed.
  eapply Forall_impl; [apply Forall_py_range|].
  intros sx Hsx. simpl.
  apply try_candidate_skips; [done|done|].
  by apply Hskip.
Qed.

(** A pixel nearer than [half] to an edge has a clipped target patch,
    which no full candidate patch matches. *)
Lemma find_best_patch_near_border (x y : Z) :
  0 ≤ y < nrows image → 0 ≤ x < ncols image →
  near_border (nrows image) (ncols image) half y x →
  _find_best_patch image mask (x, y) patch_size = Ok None.
Proof.
  intros Hy Hx Hnear. pose proof half_nonneg as Hhalf.
  apply find_best_patch_none. intros sy sx Hsy Hsx. right.
  rewrite !slice_len_inside by lia.
  unfold near_border in Hnear. lia.
Qed.

(** One iteration of the fill loop writes at most its own pixel and
    does not raise. *)
Lemma fill_pixel_ok (res : ndarray rgb) (y x : Z) :
  same_shape res image → 0 ≤ y < nrows image → 0 ≤ x < ncols image →
  ∃ res', fill_pixel image mask patch_size res (y, x) = Ok res'
          ∧ same_shape res' image
          ∧ ∀ y' x', 0 ≤ y' → 0 ≤ x' → (y', x') ≠ (y, x) →
                     at2 res' y' x' = at2 res y' x'.
Proof.
  intros [Hr Hc] Hy Hx. pose proof half_nonneg as Hhalf.
  unfold fill_pixel.
  destruct (find_best_patch_ok (x, y)) as (r & -> & Hfull). simpl.
  destruct r as [p|]; [|by exists res].
  destruct (Hfull p eq_refl) as [Hpr Hpc]. fold half.
  rewrite np_get2_in_range by lia. simpl.
  rewrite np_set2_in_range by lia.
  eexists. split; [done|]. split; [done|].
  intros y' x' Hy' Hx' Hne. apply at2_set2_other; lia || done.
Qed.

(** The fill loop does not raise, keeps the shape, and changes no pixel
    for which no patch is found. *)
Lemma fill_loop_ok (pixels : list (Z * Z)) (y x : Z) :
  Forall (λ yx, 0 ≤ fst yx < nrows image ∧ 0 ≤ snd yx < ncols image) pixels →
  0 ≤ y → 0 ≤ x →
  _find_best_patch image mask (x, y) patch_size = Ok None →
  ∃ res, foldM (fill_pixel image mask patch_size) image pixels = Ok res
         ∧ same_shape res image
         ∧ at2 res y x = at2 image y x.
Proof.
  intros Hpixels Hy Hx Hnone.
  apply (foldM_invariant _
           (λ res, same_shape res image ∧ at2 res y x = at2 image y x)
           (λ yx, 0 ≤ fst yx < nrows image ∧ 0 ≤ snd yx < ncols image));
    [done|done|].
  intros res [y' x'] [Hres Hkeep] [Hy' Hx']. simpl in Hy', Hx'.
  destruct (decide ((y, x) = (y', x'))) as [[= <- <-]|Hne].
  - unfold fill_pixel. rewrite Hnone. simpl. by exists res.
  - destruct (fill_pixel_ok res y' x' Hres Hy' Hx')
      as (res' & Hstep & Hshape' & Hother).
    exists res'. split; [done|]. split; [done|].
    rewrite Hother by done. done.
Qed.

(** When no pixel finds a patch the loop returns the array it started
    from. *)
Lemma fill_loop_unchanged (pixels : list (Z * Z)) :
  Forall (λ yx, _find_best_patch image mask (snd yx, fst yx) patch_size
                = Ok None) pixels →
  foldM (fill_pixel image mask patch_size) image pixels = Ok image.
Proof.
  intros Hnone. apply foldM_fixed.
  eapply Forall_impl; [done|].
  intros [y x] Hyx. cbn [fst snd] in Hyx. unfold fill_pixel. by rewrite Hyx.
Qed.

End PatchMatch.

Lemma same_shape_threshold (image : Image) (mask : Mask) :
  mask_fits mask image →
  same_shape (MagicEraser.above_threshold mask) (to_rgb image).
Proof.
  intros [Hr Hc]. split; simpl; by rewrite ?nrows_to_rgb, ?ncols_to_rgb.
Qed.

(** [patch_match_fill] does not raise on a mask of the image's size, and
    its result is an 'RGB' array of the image's shape. *)
Lemma patch_match_fill_total (image : Image) (mask : Mask) (patch_size : Z) :
  mask_fits mask image → 0 ≤ patch_size →
  ∃ out, ContentAwareFill.patch_match_fill image mask patch_size
         = Ok (ImgRGB out)
         ∧ same_shape out (to_rgb image).
Proof.
  intros Hfit Hsize. unfold ContentAwareFill.patch_match_fill.
  pose proof (same_shape_threshold image mask Hfit) as Hshape.
  destruct (foldM_invariant
              (ContentAwareFill.fill_pixel (to_rgb image)
                 (MagicEraser.above_threshold mask) patch_size)
              (λ res, same_shape res (to_rgb image))
              (λ yx, 0 ≤ fst yx < nrows (to_rgb image)
                     ∧ 0 ≤ snd yx < ncols (to_rgb image))
              (to_rgb image)
              (np_where (MagicEraser.above_threshold mask)))
    as (res & Hfold & Hres).
  - done.
  - destruct Hshape as [Hr Hc]. rewrite <- Hr, <- Hc.
    apply np_where_in_range.
  - intros res [y x] Hres [Hy Hx].
    destruct (fill_pixel_ok _ _ _ Hshape Hsize res y x Hres Hy Hx)
      as (res' & Hstep & Hshape' & _).
    by exists res'.
  - rewrite Hfold. simpl. by exists res.
Qed.

(** C3, the counterexample: an 'RGBA' image goes in, and both fill
    operations hand back an 'RGB' image, whatever the inpainting
    primitive and the method. *)
Lemma fill_does_not_keep_mode :
  let image := ImgRGBA (NDArray 1 1 [[(1, 2, 3, 4)]]) in
  let mask : Mask := NDArray 1 1 [[255]] in
  (∀ cv2_inpaint method,
     mode (ContentAwareFill.fill_selection cv2_inpaint image mask method)
     ≠ mode image)
  ∧ ∃ out, ContentAwareFill.patch_match_fill image mask 9 = Ok out
           ∧ mode out ≠ mode image.
Proof.
  split.
  - intros cv2_inpaint method H. discriminate H.
  - eexists. split; [vm_compute; reflexivity|]. intros H. discriminate H.
Qed.

(** C3, amended: for every image, mask and method, [fill_selection]
    returns an image of mode 'RGB', and so does [patch_match_fill] (which
    does not raise on a mask of the image's size); the mode of the
    result is the mode of the input exactly when the input is 'RGB'. *)
Theorem fill_returns_rgb
    (cv2_inpaint : ndarray rgb → ndarray Z → Z
                   → ContentAwareFill.inpaint_flag → ndarray rgb)
    (image : Image) (mask : Mask) (method : string) (patch_size : Z) :
  mask_fits mask image → 0 ≤ patch_size →
  mode (ContentAwareFill.fill_selection cv2_inpaint image mask method) = RGB
  ∧ ∃ out, ContentAwareFill.patch_match_fill image mask patch_size = Ok out
           ∧ mode out = RGB.
Proof.
  intros Hfit Hsize. split; [done|].
  destruct (patch_match_fill_total image mask patch_size Hfit Hsize)
    as (out & Hout & _).
  by exists (ImgRGB out).
Qed.

Lemma fill_returns_rgb_witness :
  let image := ImgRGBA (NDArray 1 2 [[(1, 2, 3, 4); (5, 6, 7, 8)]]) in
  let mask : Mask := NDArray 1 2 [[255; 0]] in
  let cv2_inpaint :=
    λ (a : ndarray rgb) (_ : ndarray Z) (_ : Z)
      (_ : ContentAwareFill.inpaint_flag), a in
  (mask_fits mask image ∧ 0 ≤ 9)
  ∧ mode (ContentAwareFill.fill_selection cv2_inpaint image mask "telea") = RGB
  ∧ ∃ out, ContentAwareFill.patch_match_fill image mask 9 = Ok out
           ∧ mode out = RGB.
Proof.
  assert (mask_fits (NDArray 1 2 [[255; 0]])
            (ImgRGBA (NDArray 1 2 [[(1, 2, 3, 4); (5, 6, 7, 8)]]))) as Hfit
    by (split; reflexivity).
  assert (0 ≤ 9) as Hsize by lia.
  split; [by split|].
  exact (fill_returns_rgb (λ a _ _ _, a) _ _ "telea" 9 Hfit Hsize).
Defined.

(** C6, the counterexample: a fully masked 'RGBA' image does not come
    back unchanged: the result is its 'RGB' conversion, without the
    alpha channel. *)
Lemma patch_match_fill_fully_masked_rgba :
  let image := ImgRGBA (NDArray 1 1 [[(1, 2, 3, 0)]]) in
  let mask : Mask := NDArray 1 1 [[255]] in
  fully_masked mask
  ∧ ContentAwareFill.patch_match_fill image mask 9
    = Ok (ImgRGB (NDArray 1 1 [[(1, 2, 3)]]))
  ∧ ContentAwareFill.patch_match_fill image mask 9 ≠ Ok image.
Proof.
  repeat split.
  - intros y x Hy Hx. simpl in Hy, Hx.
    assert (y = 0) as -> by lia. assert (x = 0) as -> by lia.
    vm_compute. done.
  - intros H. vm_compute in H. discriminate H.
Qed.

(** C6, amended: when the mask has the image's size and every sample of
    it is above the threshold, [patch_match_fill] finds no candidate
    patch and returns the 'RGB' conversion of the image with every pixel
    as it was; an 'RGB' image is returned unchanged. *)
Theorem patch_match_fill_fully_masked
    (image : Image) (mask : Mask) (patch_size : Z) :
  wf_array mask → mask_fits mask image → fully_masked mask →
  0 ≤ patch_size →
  ContentAwareFill.patch_match_fill image mask patch_size
  = Ok (ImgRGB (to_rgb image))
  ∧ (mode image = RGB →
     ContentAwareFill.patch_match_fill image mask patch_size = Ok image).
Proof.
  intros Hwf Hfit Hfull Hsize.
  pose proof (same_shape_threshold image mask Hfit) as Hshape.
  assert (ContentAwareFill.patch_match_fill image mask patch_size
          = Ok (ImgRGB (to_rgb image))) as Hres.
  { unfold ContentAwareFill.patch_match_fill.
    rewrite fill_loop_unchanged; [done|].
    apply Forall_forall. intros [y x] _. cbn [fst snd].
    apply find_best_patch_none; [done|done|].
    intros sy sx Hsy Hsx. left.
    pose proof (half_nonneg patch_size Hsize) as Hhalf.
    destruct Hshape as [Hr Hc]. simpl in Hr, Hc.
    unfold MagicEraser.above_threshold.
    rewrite at2_np_map by (done || lia).
    apply Z.ltb_lt, Hfull; lia. }
  split; [done|].
  intros Hmode. rewrite Hres. by destruct image.
Qed.

Lemma patch_match_fill_fully_masked_witness :
  let image := ImgRGB (NDArray 1 2 [[(1, 2, 3); (4, 5, 6)]]) in
  let mask : Mask := NDArray 1 2 [[255; 200]] in
  (wf_array mask ∧ mask_fits mask image ∧ fully_masked mask ∧ 0 ≤ 9)
  ∧ ContentAwareFill.patch_match_fill image mask 9
    = Ok (ImgRGB (to_rgb image)).
Proof.
  assert (wf_array (NDArray 1 2 [[255; 200]])) as Hwf
    by (unfold wf_array; simpl; repeat split; try lia; repeat constructor).
  assert (mask_fits (NDArray 1 2 [[255; 200]])
            (ImgRGB (NDArray 1 2 [[(1, 2, 3); (4, 5, 6)]]))) as Hfit
    by (split; reflexivity).
  assert (fully_masked (NDArray 1 2 [[255; 200]])) as Hfull.
  { intros y x Hy Hx. simpl in Hy, Hx.
    assert (y = 0) as -> by lia.
    assert (x = 0 ∨ x = 1) as [-> | ->] by lia; vm_compute; done. }
  assert (0 ≤ 9) as Hsize by lia.
  split; [done|].
  exact (proj1 (patch_match_fill_fully_masked _ _ 9 Hwf Hfit Hfull Hsize)).
Defined.

(** C10: in [patch_match_fill], for a pixel of the image that lies
    nearer than [patch_size // 2] to an edge, the search finds no best
    patch (its clipped target patch has the shape of no full candidate
    patch), and the pixel has in the result the value it had in the
    image.  This holds for every such pixel, masked or not. *)
Theorem patch_match_fill_border_unchanged
    (image : Image) (mask : Mask) (patch_size y x : Z) :
  mask_fits mask image → 0 ≤ patch_size →
  0 ≤ y < height image → 0 ≤ x < width image →
  near_border (height image) (width image) (patch_size `div` 2) y x →
  ContentAwareFill._find_best_patch
    (to_rgb image) (MagicEraser.above_threshold mask) (x, y) patch_size
  = Ok None
  ∧ ∃ out, ContentAwareFill.patch_match_fill image mask patch_size
           = Ok (ImgRGB out)
           ∧ at2 out y x = at2 (to_rgb image) y x.
Proof.
  intros Hfit Hsize Hy Hx Hnear.
  pose proof (same_shape_threshold image mask Hfit) as Hshape.
  rewrite <- nrows_to_rgb in Hy, Hnear. rewrite <- ncols_to_rgb in Hx, Hnear.
  pose proof (find_best_patch_near_border _ _ _ Hshape Hsize x y Hy Hx Hnear)
    as Hnone.
  split; [done|].
  unfold ContentAwareFill.patch_match_fill.
  destruct (fill_loop_ok _ _ _ Hshape Hsize
              (np_where (MagicEraser.above_threshold mask)) y x)
    as (res & Hfold & _ & Hkeep); [|lia|lia|done|].
  - destruct Hshape as [Hr Hc]. rewrite <- Hr, <- Hc.
    apply np_where_in_range.
  - rewrite Hfold. simpl. by exists res.
Qed.

Lemma patch_match_fill_border_unchanged_witness :
  let image :=
    ImgRGB (NDArray 3 3 [[(1, 1, 1); (2, 2, 2); (3, 3, 3)];
                         [(4, 4, 4); (5, 5, 5); (6, 6, 6)];
                         [(7, 7, 7); (8, 8, 8); (9, 9, 9)]]) in
  let mask : Mask := NDArray 3 3 [[0; 0; 0]; [0; 0; 255]; [0; 0; 0]] in
  (mask_fits mask image ∧ 0 ≤ 3 ∧ near_border 3 3 (3 `div` 2) 1 2)
  ∧ ContentAwareFill._find_best_patch
      (to_rgb image) (MagicEraser.above_threshold mask) (2, 1) 3
    = Ok None.
Proof.
  assert (mask_fits (NDArray 3 3 [[0; 0; 0]; [0; 0; 255]; [0; 0; 0]])
            (ImgRGB (NDArray 3 3 [[(1, 1, 1); (2, 2, 2); (3, 3, 3)];
                                  [(4, 4, 4); (5, 5, 5); (6, 6, 6)];
                                  [(7, 7, 7); (8, 8, 8); (9, 9, 9)]])))
    as Hfit by (split; reflexivity).
  assert (0 ≤ 3) as Hsize by lia.
  assert (near_border 3 3 (3 `div` 2) 1 2) as Hnear
    by (unfold near_border; right; right; right; vm_compute; discriminate).
  split; [done|].
  refine (proj1 (patch_match_fill_border_unchanged _ _ 3 1 2 Hfit Hsize _ _ Hnear));
    simpl; lia.
Defined.

(** ** Flood fill *)

Section FloodFill.

Import MagicEraser.

Lemma cells_insert (row : list bool) (j : nat) :
  row !! j = Some false →
  (sum_list_with (λ b : bool, if b then 0 else 1) (<[j:=true]> row) + 1
   = sum_list_with (λ b : bool, if b then 0 else 1) row)%nat.
Proof.
  revert j. induction row as [|b row IH]; intros [|j] Hj; simpl in *;
    try discriminate Hj.
  - injection Hj as ->. lia.
  - specialize (IH j Hj). lia.
Qed.

Lemma rows_alter {A} (g : list A → nat) (f : list A → list A)
    (rows : list (list A)) (i : nat) (row : list A) :
  rows !! i = Some row →
  (sum_list_with g (alter f i rows) + g row
   = sum_list_with g rows + g (f row))%nat.
Proof.
  revert i. induction rows as [|r rows IH]; intros [|i] Hi; simpl in *;
    try discriminate Hi.
  - injection Hi as ->. lia.
  - specialize (IH i Hi).
    change (alter f i rows) with (list_alter f i rows) in IH. lia.
Qed.

Lemma rectangular_full {A} (h w : Z) (v : A) : rectangular (np_full h w v).
Proof.
  split; simpl.
  - by rewrite length_replicate.
  - apply Forall_replicate. by rewrite length_replicate.
Qed.

Lemma rectangular_set2 {A} (a : ndarray A) (y x : Z) (v : A) :
  rectangular a → rectangular (set2 a y x v).
Proof.
  intros [Hlen Hrows]. split; simpl.
  - by rewrite length_alter.
  - rewrite Forall_forall in Hrows. apply Forall_forall. intros r Hr.
    apply list_elem_of_lookup in Hr as [i Hi].
    rewrite list_lookup_alter in Hi. case_decide.
    + destruct (elems a !! Z.to_nat y) as [r0|] eqn:Hr0; [|discriminate Hi].
      injection Hi as <-. rewrite length_insert. apply Hrows.
      by eapply list_elem_of_lookup_2.
    + apply Hrows. by eapply list_elem_of_lookup_2.
Qed.

Lemma unvisited_full (h w : Z) :
  unvisited (np_full h w false) = (Z.to_nat h * Z.to_nat w)%nat.
Proof.
  unfold unvisited, np_full. simpl.
  assert (∀ n, sum_list_with (λ b : bool, if b then 0 else 1)
                 (replicate n false) = n)%nat as Hrow.
  { induction n as [|n IH]; simpl; [done|]. by rewrite IH. }
  induction (Z.to_nat h) as [|n IH]; simpl; [done|].
  by rewrite IH, Hrow.
Qed.

(** Marking a cell that was [False] leaves one unvisited cell fewer. *)
Lemma unvisited_set2 (visited : ndarray bool) (y x : Z) :
  rectangular visited →
  0 ≤ y < nrows visited → 0 ≤ x < ncols visited →
  at2 visited y x = false →
  (unvisited (set2 visited y x true) + 1 = unvisited visited)%nat.
Proof.
  intros [Hlen Hrows] Hy Hx Hcell. unfold unvisited, at2, set2 in *.
  cbn [elems] in *.
  assert (Z.to_nat y < length (elems visited))%nat as Hlt by lia.
  apply lookup_lt_is_Some_2 in Hlt as [row Hrow].
  assert (length row = Z.to_nat (ncols visited)) as Hlr.
  { rewrite Forall_forall in Hrows. apply Hrows.
    by eapply list_elem_of_lookup_2. }
  assert (Z.to_nat x < length row)%nat as Hlt by lia.
  apply lookup_lt_is_Some_2 in Hlt as [b Hb].
  rewrite (list_lookup_total_alt (elems visited)), Hrow in Hcell.
  simpl in Hcell. rewrite list_lookup_total_alt, Hb in Hcell.
  simpl in Hcell. subst b.
  pose proof (rows_alter
                (λ row0, sum_list_with
                           (λ b : bool, if b then 0%nat else 1%nat) row0)
                (λ r, <[Z.to_nat x:=true]> r) _ _ _ Hrow) as Halter.
  pose proof (cells_insert _ _ Hb) as Hins. cbn beta in Halter. lia.
Qed.

(** The loop ends before its fuel does: each iteration either shortens
    the stack by one, or marks a cell and lengthens the stack by
    three. *)
Lemma flood_loop_terminates (img_array : ndarray rgb) (target_color : rgb)
    (tol : Z) (fuel : nat) (stack : list (Z * Z)) (visited : ndarray bool)
    (mask : ndarray Z) :
  rectangular visited → same_shape visited img_array →
  (length stack + 4 * unvisited visited < fuel)%nat →
  ∃ m, flood_loop fuel img_array target_color tol stack visited mask = Some m.
Proof.
  revert stack visited mask.
  induction fuel as [|fuel IH]; intros stack visited mask Hrect Hshape Hfuel;
    [lia|].
  simpl. destruct stack as [|[x y] stack]; [by eexists|].
  simpl in Hfuel.
  destruct ((x <? 0) || (x >=? ncols img_array) || (y <? 0)
            || (y >=? nrows img_array) || at2 visited y x) eqn:Hskip.
  - apply IH; [done|done|lia].
  - destruct (within_tolerance _ _).
    + rewrite !orb_false_iff in Hskip.
      destruct Hskip as [[[[Hx0 Hx1] Hy0] Hy1] Hcell].
      apply Z.ltb_ge in Hx0, Hy0.
      rewrite Z.geb_leb in Hx1, Hy1. apply Z.leb_gt in Hx1, Hy1.
      destruct Hshape as [Hr Hc].
      pose proof (unvisited_set2 visited y x Hrect) as Hmark.
      rewrite Hr, Hc in Hmark. specialize (Hmark ltac:(lia) ltac:(lia) Hcell).
      apply IH.
      * by apply rectangular_set2.
      * done.
      * simpl. lia.
    + apply IH; [done|done|lia].
Qed.

(** [_flood_fill_select] always returns a mask. *)
Lemma flood_fill_select_total (img_array : ndarray rgb) (start_point : Z * Z)
    (target_color : rgb) (tol : Z) :
  ∃ m, _flood_fill_select img_array start_point target_color tol = Some m.
Proof.
  unfold _flood_fill_select. apply flood_loop_terminates.
  - apply rectangular_full.
  - done.
  - rewrite unvisited_full. unfold flood_fuel. simpl. lia.
Qed.

(** [magic_select] always returns a mask. *)
Lemma magic_select_total
    (GaussianBlur : ndarray Z → Z * Z → Q → ndarray Z)
    (self : t) (image : Image) (point : Z * Z)
    (tolerance : option Z) (contiguous : option bool) :
  ∃ m, magic_select GaussianBlur self image point tolerance contiguous = Some m.
Proof.
  unfold magic_select.
  destruct (_ || _); [by eexists|].
  match goal with
  | |- context [if ?c then _flood_fill_select ?a ?p ?t ?tol else _] =>
      destruct c;
      [destruct (flood_fill_select_total a p t tol) as [m ->]|]
  end; simpl; by eexists.
Qed.

End FloodFill.

(** ** Flood fill on an image the tolerance accepts everywhere *)

Lemma at2_set2_same {A} `{!Inhabited A} (a : ndarray A) (y x : Z) (v : A) :
  rectangular a → in_bounds a y x → at2 (set2 a y x v) y x = v.
Proof.
  intros [Hlen Hrows] [Hy Hx]. unfold at2, set2. cbn [elems].
  assert (Z.to_nat y < length (elems a))%nat as Hlt by lia.
  rewrite (list_lookup_total_alter (λ r, <[Z.to_nat x:=v]> r)).
  rewrite decide_True by done.
  apply lookup_lt_is_Some_2 in Hlt as [row Hrow].
  rewrite (list_lookup_total_alt (elems a)), Hrow. simpl.
  apply list_lookup_total_insert_eq.
  rewrite Forall_forall in Hrows.
  rewrite (Hrows row) by (by eapply list_elem_of_lookup_2). lia.
Qed.

(** A set of cells that contains the seed and is closed under the four
    neighbours contains every cell of the grid. *)
Lemma grid_connected (h w y0 x0 : Z) (marked : Z → Z → Prop) :
  0 ≤ y0 < h → 0 ≤ x0 < w → marked y0 x0 →
  (∀ y x q, 0 ≤ y < h → 0 ≤ x < w → marked y x → q ∈ neighbours (x, y) →
            0 ≤ snd q < h → 0 ≤ fst q < w → marked (snd q) (fst q)) →
  ∀ y x, 0 ≤ y < h → 0 ≤ x < w → marked y x.
Proof.
  intros Hy0 Hx0 Hseed Hclosed.
  assert (∀ (n : nat) x, 0 ≤ x < w → Z.abs (x - x0) = Z.of_nat n →
                         marked y0 x) as Hrow.
  { induction n as [|n IH]; intros x Hx Hdist.
    - assert (x = x0) as -> by lia. done.
    - destruct (Z_lt_le_dec x0 x) as [Hgt|Hle].
      + apply (Hclosed y0 (x - 1) (x, y0)); simpl; try lia.
        * apply IH; lia.
        * replace (x - 1 + 1) with x by lia.
          do 3 apply list_elem_of_further. apply list_elem_of_here.
      + apply (Hclosed y0 (x + 1) (x, y0)); simpl; try lia.
        * apply IH; lia.
        * replace (x + 1 - 1) with x by lia.
          do 2 apply list_elem_of_further. apply list_elem_of_here. }
  assert (∀ (n : nat) y x, 0 ≤ y < h → 0 ≤ x < w →
                           Z.abs (y - y0) = Z.of_nat n → marked y x) as Hcol.
  { induction n as [|n IH]; intros y x Hy Hx Hdist.
    - assert (y = y0) as -> by lia.
      apply (Hrow (Z.to_nat (Z.abs (x - x0)))); lia.
    - destruct (Z_lt_le_dec y0 y) as [Hgt|Hle].
      + apply (Hclosed (y - 1) x (x, y)); simpl; try lia.
        * apply IH; lia.
        * replace (y - 1 + 1) with y by lia.
          apply list_elem_of_further, list_elem_of_here.
      + apply (Hclosed (y + 1) x (x, y)); simpl; try lia.
        * apply IH; lia.
        * replace (y + 1 - 1) with y by lia. apply list_elem_of_here. }
  intros y x Hy Hx. apply (Hcol (Z.to_nat (Z.abs (y - y0)))); lia.
Qed.

Section FloodFillComplete.

Import MagicEraser.

Variables (img_array : ndarray rgb) (target_color : rgb) (tol : Z).
Variable start : Z * Z.

Hypothesis Hstart : in_bounds img_array (snd start) (fst start).

(** Every pixel of the image is within the tolerance of the target. *)
Hypothesis Haccept :
  ∀ y x, in_bounds img_array y x →
         within_tolerance (sum_sq (at2 img_array y x) target_color) tol = true.

(** Marking a cell keeps every marked cell marked. *)
Lemma marked_stays (visited : ndarray bool) (y x y' x' : Z) :
  rectangular visited → same_shape visited img_array →
  in_bounds img_array y x → in_bounds img_array y' x' →
  at2 visited y' x' = true → at2 (set2 visited y x true) y' x' = true.
Proof.
  intros Hrect [Hr Hc] [Hy Hx] [Hy' Hx'] Hvis.
  destruct (decide ((y', x') = (y, x))) as [[= -> ->]|Hne].
  - apply at2_set2_same; [done|]. split; lia.
  - rewrite at2_set2_other by (lia || done). done.
Qed.

(** Skipping the popped point keeps the invariant when the point lies
    outside the image or is already marked. *)
Lemma flood_inv_skip (p : Z * Z) (stack : list (Z * Z))
    (visited : ndarray bool) (mask : ndarray Z) :
  flood_inv img_array start (p :: stack) visited mask →
  (in_bounds img_array (snd p) (fst p) → at2 visited (snd p) (fst p) = true) →
  flood_inv img_array start stack visited mask.
Proof.
  intros (Hrv & Hrm & Hsv & Hsm & Hsel & Hnb & Hseed) Hp.
  split; [done|]. split; [done|]. split; [done|]. split; [done|].
  split; [done|]. split.
  - intros y x q Hyx Hvis Hq Hqb.
    destruct (Hnb y x q Hyx Hvis Hq Hqb) as [Hqv|Hqs]; [by left|].
    apply elem_of_cons in Hqs as [->|Hqs]; [left; by apply Hp|by right].
  - destruct Hseed as [Hv|Hs]; [by left|].
    apply elem_of_cons in Hs as [->|Hs]; [left; by apply Hp|by right].
Qed.

(** Marking the popped point and pushing its four neighbours keeps the
    invariant. *)
Lemma flood_inv_mark (x y : Z) (stack : list (Z * Z))
    (visited : ndarray bool) (mask : ndarray Z) :
  flood_inv img_array start ((x, y) :: stack) visited mask →
  in_bounds img_array y x →
  flood_inv img_array start (neighbours (x, y) ++ stack)
            (set2 visited y x true) (set2 mask y x 255).
Proof.
  intros (Hrv & Hrm & Hsv & Hsm & Hsel & Hnb & Hseed) Hyx.
  assert (∀ q, q = (x, y) ∨ q ∈ stack → in_bounds img_array (snd q) (fst q) →
               at2 (set2 visited y x true) (snd q) (fst q) = true
               ∨ q ∈ neighbours (x, y) ++ stack) as Hpending.
  { intros q [->|Hq] Hqb.
    - left. apply at2_set2_same; [done|].
      destruct Hsv as [Hr Hc], Hyx. split; simpl; lia.
    - right. apply elem_of_app. by right. }
  split; [by apply rectangular_set2|]. split; [by apply rectangular_set2|].
  split; [done|]. split; [done|]. split; [|split].
  - intros y' x' Hb' Hvis.
    destruct (decide ((y', x') = (y, x))) as [[= -> ->]|Hne].
    + apply at2_set2_same; [done|].
      destruct Hsm as [Hr Hc], Hyx. split; lia.
    + destruct Hyx, Hb'.
      rewrite at2_set2_other in Hvis by (lia || done).
      rewrite at2_set2_other by (lia || done). by apply Hsel.
  - intros y' x' q Hb' Hvis Hq Hqb.
    destruct (decide ((y', x') = (y, x))) as [[= -> ->]|Hne].
    + right. apply elem_of_app. by left.
    + destruct Hyx as [Hy Hx], Hb' as [Hy' Hx'].
      rewrite at2_set2_other in Hvis by (lia || done).
      destruct (Hnb y' x' q (conj Hy' Hx') Hvis Hq Hqb) as [Hqv|Hqs].
      * left. by apply marked_stays.
      * apply Hpending; [|done].
        apply elem_of_cons in Hqs as [->|Hqs]; [by left|by right].
  - destruct Hseed as [Hv|Hs].
    + left. by apply marked_stays.
    + apply Hpending; [|done].
      apply elem_of_cons in Hs as [->|Hs]; [by left|by right].
Qed.

(** When the loop returns, every cell of the image is selected. *)
Lemma flood_loop_complete (fuel : nat) (stack : list (Z * Z))
    (visited : ndarray bool) (mask m : ndarray Z) :
  flood_inv img_array start stack visited mask →
  flood_loop fuel img_array target_color tol stack visited mask = Some m →
  same_shape m img_array
  ∧ ∀ y x, in_bounds img_array y x → at2 m y x = 255.
Proof.
  revert stack visited mask.
  induction fuel as [|fuel IH]; intros stack visited mask Hinv Hrun;
    [discriminate Hrun|].
  cbn [flood_loop] in Hrun. destruct stack as [|[x y] stack].
  - injection Hrun as <-.
    destruct Hinv as (Hrv & Hrm & Hsv & Hsm & Hsel & Hnb & Hseed).
    split; [done|]. intros y x Hyx. apply Hsel; [done|].
    destruct Hstart as [Hy0 Hx0], Hyx as [Hy Hx].
    apply (grid_connected (nrows img_array) (ncols img_array)
             (snd start) (fst start)
             (λ y x, at2 visited y x = true)); try done.
    + destruct Hseed as [Hv|Hs]; [done|]. by apply elem_of_nil in Hs.
    + intros y' x' q Hy' Hx' Hvis Hq Hqy Hqx.
      destruct (Hnb y' x' q (conj Hy' Hx') Hvis Hq (conj Hqy Hqx))
        as [Hqv|Hqs]; [done|].
      by apply elem_of_nil in Hqs.
  - destruct ((x <? 0) || (x >=? ncols img_array) || (y <? 0)
              || (y >=? nrows img_array) || at2 visited y x) eqn:Hskip.
    + apply (IH _ _ _ (flood_inv_skip (x, y) _ _ _ Hinv ltac:(
        intros [Hy Hx]; simpl in Hy, Hx;
        rewrite !orb_true_iff in Hskip;
        rewrite !Z.ltb_lt, !Z.geb_le in Hskip;
        destruct Hskip as [[[[?|?]|?]|?]|?]; simpl; done || lia)) Hrun).
    + rewrite !orb_false_iff in Hskip.
      destruct Hskip as [[[[Hx0 Hx1] Hy0] Hy1] Hcell].
      apply Z.ltb_ge in Hx0, Hy0.
      rewrite Z.geb_leb in Hx1, Hy1. apply Z.leb_gt in Hx1, Hy1.
      assert (in_bounds img_array y x) as Hyx by (split; lia).
      rewrite (Haccept y x Hyx) in Hrun.
      apply (IH _ _ _ (flood_inv_mark x y _ _ _ Hinv Hyx) Hrun).
Qed.

(** On such an image [_flood_fill_select] returns the mask that selects
    every pixel. *)
Lemma flood_fill_select_complete :
  ∃ m, _flood_fill_select img_array start target_color tol = Some m
       ∧ same_shape m img_array
       ∧ ∀ y x, in_bounds img_array y x → at2 m y x = 255.
Proof.
  destruct (flood_fill_select_total img_array start target_color tol)
    as [m Hm].
  exists m. split; [done|].
  unfold _flood_fill_select in Hm.
  apply (flood_loop_complete _ _ _ _ _) in Hm; [done|].
  split; [apply rectangular_full|]. split; [apply rectangular_full|].
  split; [done|]. split; [done|]. split; [|split].
  - intros y x [Hy Hx] Hvis. by rewrite at2_np_full in Hvis.
  - intros y x q [Hy Hx] Hvis. by rewrite at2_np_full in Hvis.
  - right. apply list_elem_of_here.
Qed.

End FloodFillComplete.

Lemma sum_sq_same (c : rgb) : sum_sq c c = 0.
Proof.
  destruct c as [[r g] b]. unfold sum_sq, sq_diff.
  by rewrite !Z.sub_diag.
Qed.

(** The first half of C1 as the flood fill has it: on a flat-colour
    image, from a seed inside the image and with any tolerance that is
    not negative, every pixel is selected. *)
Lemma flood_fill_select_flat (img_array : ndarray rgb) (start : Z * Z)
    (colour : rgb) (tol : Z) :
  in_bounds img_array (snd start) (fst start) →
  (∀ y x, in_bounds img_array y x → at2 img_array y x = colour) →
  0 ≤ tol →
  ∃ m, MagicEraser._flood_fill_select img_array start colour tol = Some m
       ∧ same_shape m img_array
       ∧ ∀ y x, in_bounds img_array y x → at2 m y x = 255.
Proof.
  intros Hstart Hflat Htol. apply flood_fill_select_complete; [done|].
  intros y x Hyx. rewrite (Hflat y x Hyx), sum_sq_same.
  unfold MagicEraser.within_tolerance.
  apply andb_true_iff. split; apply Z.leb_le; nia.
Qed.

(** C1, at the input where the code departs from it: a 2x1 image whose
    seed pixel (10, 10, 10) has the single neighbour (11, 10, 10), with
    [tolerance=0] in contiguous mode.  The tolerance in force is the
    default 32, not 0, the flood fill marks both pixels, and the mask
    [magic_select] returns is the fully selected mask (smoothed when the
    eraser has smoothing on): the differently coloured neighbour is
    selected. *)
Theorem magic_select_zero_tolerance_keeps_neighbour :
  let image := ImgRGB (NDArray 1 2 [[(10, 10, 10); (11, 10, 10)]]) in
  let selected : Mask := NDArray 1 2 [[255; 255]] in
  let plain :=
    MagicEraser.Make 32 true false false 0 in
  MagicEraser.py_or (Some 0) (MagicEraser.tolerance MagicEraser.init) = 32
  ∧ MagicEraser._flood_fill_select (to_rgb image) (0, 0) (10, 10, 10) 32
    = Some selected
  ∧ (∀ blur, MagicEraser.magic_select blur plain image (0, 0)
                                      (Some 0) (Some true)
             = Some selected)
  ∧ (∀ blur, MagicEraser.magic_select blur MagicEraser.init image (0, 0)
                                      (Some 0) (Some true)
             = Some (blur (blur selected (3, 3) (1 # 2)%Q) (3, 3) (1 # 3)%Q)).
Proof.
  repeat split; intros; vm_compute; reflexivity.
Qed.

(** * Further properties of the code *)

(** ** Arrays are determined by their elements *)

Lemma np_tabulate_ext {A} (r c : Z) (f g : Z → Z → A) :
  (∀ y x, 0 ≤ y < r → 0 ≤ x < c → f y x = g y x) →
  np_tabulate r c f = np_tabulate r c g.
Proof.
  intros Hfg. unfold np_tabulate. f_equal.
  apply list_fmap_ext. intros i y Hy.
  apply lookup_seqZ in Hy as [-> Hi].
  apply list_fmap_ext. intros j x Hx.
  apply lookup_seqZ in Hx as [-> Hj].
  apply Hfg; lia.
Qed.

Lemma fmap_py_range_lookup {A} `{!Inhabited A} (l : list A) (n : Z) :
  length l = Z.to_nat n →
  (λ i, l !!! Z.to_nat i) <$> py_range 0 n = l.
Proof.
  intros Hlen. apply list_eq. intros i.
  rewrite list_lookup_fmap. unfold py_range.
  destruct (decide (i < length l)%nat) as [Hlt|Hge].
  - rewrite lookup_seqZ_lt by lia. simpl.
    apply lookup_lt_is_Some_2 in Hlt as [v Hv]. rewrite Hv. f_equal.
    rewrite list_lookup_total_alt.
    replace (Z.to_nat (0 + Z.of_nat i)) with i by lia. by rewrite Hv.
  - rewrite lookup_seqZ_ge by lia. simpl. symmetry.
    apply lookup_ge_None. lia.
Qed.

(** A well-formed array is the table of its elements. *)
Lemma tabulate_at2 {A} `{!Inhabited A} (a : ndarray A) :
  wf_array a → np_tabulate (nrows a) (ncols a) (at2 a) = a.
Proof.
  intros (Hr & Hc & Hlen & Hrows). destruct a as [r c rows].
  unfold np_tabulate, at2. simpl in *. f_equal.
  etrans; [|apply (fmap_py_range_lookup rows r Hlen)].
  apply list_fmap_ext. intros i y Hy. unfold py_range in Hy.
  apply lookup_seqZ in Hy as [-> Hi].
  apply fmap_py_range_lookup.
  assert (Z.to_nat (0 + Z.of_nat i) < length rows)%nat as Hlt by lia.
  apply lookup_lt_is_Some_2 in Hlt as [row Hrow].
  rewrite list_lookup_total_alt, Hrow. simpl.
  rewrite Forall_forall in Hrows. apply Hrows.
  by eapply list_elem_of_lookup_2.
Qed.

(** Two well-formed arrays of one shape with the same elements are
    equal. *)
Lemma array_ext {A} `{!Inhabited A} (a b : ndarray A) :
  wf_array a → wf_array b → same_shape a b →
  (∀ y x, 0 ≤ y < nrows a → 0 ≤ x < ncols a → at2 a y x = at2 b y x) →
  a = b.
Proof.
  intros Ha Hb [Hr Hc] Heq.
  rewrite <- (tabulate_at2 a Ha), <- (tabulate_at2 b Hb), <- Hr, <- Hc.
  by apply np_tabulate_ext.
Qed.

Lemma bdim_comm (da db : Z) : bdim da db = bdim db da.
Proof.
  unfold bdim.
  destruct (Z.eqb_spec da db) as [->|Hne].
  - by rewrite Z.eqb_refl.
  - destruct (Z.eqb_spec db da) as [->|_]; [done|].
    destruct (Z.eqb_spec da 1) as [->|Ha], (Z.eqb_spec db 1) as [->|Hb];
      done.
Qed.

Lemma bdim_ok (da db d : Z) :
  0 ≤ da → 0 ≤ db → bdim da db = Ok d → 0 ≤ d.
Proof.
  unfold bdim. intros Ha Hb.
  destruct (da =? db); [intros [= <-]; done|].
  destruct (da =? 1); [intros [= <-]; done|].
  destruct (db =? 1); [intros [= <-]; done|discriminate].
Qed.

Lemma u8_range (v : Z) : 0 ≤ u8 v < 256.
Proof. unfold u8. apply Z.mod_pos_bound. lia. Qed.

Lemma samples_np_map_u8 (a : ndarray Z) :
  Forall (Forall (λ v, 0 ≤ v < 256)) (elems (np_map u8 a)).
Proof.
  unfold np_map. simpl. apply Forall_fmap, Forall_forall. intros row _.
  simpl. apply Forall_fmap, Forall_forall. intros v _. apply u8_range.
Qed.

(** The samples of a well-formed mask, read through [at2]. *)
Lemma wf_mask_at2 (m : Mask) (y x : Z) :
  wf_mask m → 0 ≤ y < nrows m → 0 ≤ x < ncols m → 0 ≤ at2 m y x < 256.
Proof.
  intros [(Hr & Hc & Hlen & Hrows) Hsamples] Hy Hx. unfold at2.
  assert (Z.to_nat y < length (elems m))%nat as Hlt by lia.
  apply lookup_lt_is_Some_2 in Hlt as [row Hrow].
  rewrite (list_lookup_total_alt (elems m)), Hrow. simpl.
  rewrite Forall_forall in Hrows, Hsamples.
  pose proof (Hrows row ltac:(by eapply list_elem_of_lookup_2)) as Hlr.
  pose proof (Hsamples row ltac:(by eapply list_elem_of_lookup_2)) as Hrs.
  assert (Z.to_nat x < length row)%nat as Hlt by lia.
  apply lookup_lt_is_Some_2 in Hlt as [v Hv].
  rewrite list_lookup_total_alt, Hv. simpl.
  rewrite Forall_forall in Hrs. apply Hrs.
  by eapply list_elem_of_lookup_2.
Qed.

(** ** More of the selection algebra *)

Lemma np_broadcast2_same_shape {A B C} `{!Inhabited A, !Inhabited B}
    (f : A → B → C) (a : ndarray A) (b : ndarray B) :
  same_shape a b →
  np_broadcast2 f a b
  = Ok (np_tabulate (nrows a) (ncols a) (λ y x, f (at2 a y x) (at2 b y x))).
Proof.
  intros [Hr Hc]. unfold np_broadcast2.
  rewrite <- Hr, <- Hc, !bdim_same. simpl. f_equal.
  apply np_tabulate_ext. intros y x Hy Hx.
  by rewrite !bidx_in_range.
Qed.

Lemma np_broadcast2_incompatible {A B C} `{!Inhabited A, !Inhabited B}
    (f : A → B → C) (a : ndarray A) (b : ndarray B) :
  incompatible_shapes a b → np_broadcast2 f a b = Err ValueError.
Proof.
  intros Hinc. unfold np_broadcast2.
  assert (∀ da db, da ≠ db → da ≠ 1 → db ≠ 1 → bdim da db = Err ValueError)
    as Hbad.
  { intros da db H1 H2 H3. unfold bdim.
    destruct (Z.eqb_spec da db), (Z.eqb_spec da 1), (Z.eqb_spec db 1);
      done. }
  destruct Hinc as [(H1 & H2 & H3)|(H1 & H2 & H3)].
  - rewrite (Hbad (nrows a)) by done. reflexivity.
  - rewrite (Hbad (ncols a)) by done.
    destruct (bdim (nrows a) (nrows b)) as [r|e] eqn:Hrows; [reflexivity|].
    unfold bdim in Hrows.
    repeat (match type of Hrows with
            | (if ?c then _ else _) = _ => destruct c
            end; try discriminate Hrows).
    by injection Hrows as <-.
Qed.

Lemma at2_u8_tabulate (r c : Z) (f : Z → Z → Z) (y x : Z) :
  0 ≤ y < r → 0 ≤ x < c →
  at2 (np_map u8 (np_tabulate r c f)) y x = u8 (f y x).
Proof.
  intros Hy Hx.
  rewrite at2_np_map by (apply wf_tabulate || simpl; lia).
  by rewrite at2_tabulate.
Qed.

Lemma wf_mask_u8_tabulate (r c : Z) (f : Z → Z → Z) :
  0 ≤ r → 0 ≤ c → wf_mask (np_map u8 (np_tabulate r c f)).
Proof.
  intros Hr Hc. split.
  - by apply wf_np_map, wf_tabulate.
  - apply samples_np_map_u8.
Qed.

Lemma wf_mask_invert (m : Mask) :
  wf_mask m → wf_mask (AdvancedSelectionTools.invert_selection m).
Proof.
  intros [Hwf _]. split.
  - by apply wf_np_map.
  - unfold AdvancedSelectionTools.invert_selection, np_map. simpl.
    apply Forall_fmap, Forall_forall. intros row _. simpl.
    apply Forall_fmap, Forall_forall. intros v _. apply u8_range.
Qed.

(** X1: ['union'] and ['intersection'] do not depend on the order of the
    two masks, whatever their shapes: the same mask, or the same error. *)
Theorem combine_selections_commutative (m1 m2 : Mask) :
  AdvancedSelectionTools.combine_selections m1 m2 "union"
  = AdvancedSelectionTools.combine_selections m2 m1 "union"
  ∧ AdvancedSelectionTools.combine_selections m1 m2 "intersection"
    = AdvancedSelectionTools.combine_selections m2 m1 "intersection".
Proof.
  unfold AdvancedSelectionTools.combine_selections, np_broadcast2. simpl.
  rewrite (bdim_comm (nrows m2)), (bdim_comm (ncols m2)).
  destruct (bdim (nrows m1) (nrows m2)) as [r|e]; [|done].
  destruct (bdim (ncols m1) (ncols m2)) as [c|e]; [|done]. simpl.
  split; do 2 f_equal; apply np_tabulate_ext; intros y x _ _.
  - apply Z.max_comm.
  - apply Z.min_comm.
Qed.

(** X2: the empty selection is neutral for ['union'] and the full
    selection is neutral for ['intersection']; both operations are
    idempotent. *)
Theorem combine_selections_neutral (m : Mask) :
  wf_mask m →
  AdvancedSelectionTools.combine_selections
    m (Image_new_L (ncols m, nrows m) 0) "union" = Ok m
  ∧ AdvancedSelectionTools.combine_selections
      m (Image_new_L (ncols m, nrows m) 255) "intersection" = Ok m
  ∧ AdvancedSelectionTools.combine_selections m m "union" = Ok m
  ∧ AdvancedSelectionTools.combine_selections m m "intersection" = Ok m.
Proof.
  intros Hwf. pose proof Hwf as [Harr _].
  pose proof Harr as (Hr & Hc & _).
  unfold AdvancedSelectionTools.combine_selections. simpl.
  rewrite !np_broadcast2_same_shape by done. simpl.
  repeat split; f_equal;
    (apply array_ext;
     [by apply wf_mask_u8_tabulate|done|done|];
     intros y x Hy Hx; simpl in Hy, Hx;
     rewrite at2_u8_tabulate by done;
     pose proof (wf_mask_at2 m y x Hwf Hy Hx) as Hv;
     unfold Image_new_L; simpl; rewrite ?at2_np_full by done;
     rewrite u8_id by lia; lia).
Qed.

Lemma combine_selections_neutral_witness :
  let m : Mask := NDArray 1 3 [[0; 100; 255]] in
  wf_mask m ∧
  AdvancedSelectionTools.combine_selections
    m (Image_new_L (ncols m, nrows m) 0) "union" = Ok m.
Proof.
  assert (wf_mask (NDArray 1 3 [[0; 100; 255]])) as Hwf.
  { split; [unfold wf_array; simpl; repeat split; try lia|];
      repeat constructor; lia. }
  split; [exact Hwf|].
  exact (proj1 (combine_selections_neutral _ Hwf)).
Defined.

(** X3: ['difference'] is, at every pixel, [max(m1 - m2, 0)]: the
    comparison [array1 > array2] keeps the [uint8] subtraction from
    wrapping. *)
Theorem combine_difference_pointwise (m1 m2 : Mask) :
  wf_mask m1 → wf_mask m2 → same_shape m1 m2 →
  ∃ out, AdvancedSelectionTools.combine_selections m1 m2 "difference" = Ok out
         ∧ same_shape out m1
         ∧ ∀ y x, 0 ≤ y < nrows m1 → 0 ≤ x < ncols m1 →
                  at2 out y x = Z.max (at2 m1 y x - at2 m2 y x) 0.
Proof.
  intros Hwf1 Hwf2 Hshape.
  unfold AdvancedSelectionTools.combine_selections. simpl.
  rewrite np_broadcast2_same_shape by done. simpl.
  eexists. split; [done|]. split; [done|].
  intros y x Hy Hx. rewrite at2_u8_tabulate by done.
  pose proof (wf_mask_at2 m1 y x Hwf1 Hy Hx) as Hv1.
  destruct Hshape as [Hr Hc].
  pose proof (wf_mask_at2 m2 y x Hwf2 ltac:(lia) ltac:(lia)) as Hv2.
  destruct (Z.ltb_spec (at2 m2 y x) (at2 m1 y x)).
  - rewrite (u8_id (_ - _)) by lia. rewrite u8_id by lia. lia.
  - rewrite u8_id by lia. lia.
Qed.

Lemma combine_difference_pointwise_witness :
  let m1 : Mask := NDArray 1 2 [[200; 10]] in
  let m2 : Mask := NDArray 1 2 [[50; 255]] in
  (wf_mask m1 ∧ wf_mask m2 ∧ same_shape m1 m2)
  ∧ ∃ out, AdvancedSelectionTools.combine_selections m1 m2 "difference" = Ok out
           ∧ same_shape out m1
           ∧ ∀ y x, 0 ≤ y < nrows m1 → 0 ≤ x < ncols m1 →
                    at2 out y x = Z.max (at2 m1 y x - at2 m2 y x) 0.
Proof.
  assert (wf_mask (NDArray 1 2 [[200; 10]])) as Hwf1.
  { split; [unfold wf_array; simpl; repeat split; try lia|];
      repeat constructor; lia. }
  assert (wf_mask (NDArray 1 2 [[50; 255]])) as Hwf2.
  { split; [unfold wf_array; simpl; repeat split; try lia|];
      repeat constructor; lia. }
  assert (same_shape (NDArray 1 2 [[200; 10]]) (NDArray 1 2 [[50; 255]]))
    as Hshape by (split; reflexivity).
  split; [done|].
  exact (combine_difference_pointwise _ _ Hwf1 Hwf2 Hshape).
Defined.

(** X4: De Morgan for masks: inverting the union of two masks gives the
    intersection of the inverted masks. *)
Theorem invert_union_is_intersection (m1 m2 : Mask) :
  wf_mask m1 → wf_mask m2 → same_shape m1 m2 →
  ∃ u, AdvancedSelectionTools.combine_selections m1 m2 "union" = Ok u
       ∧ AdvancedSelectionTools.combine_selections
           (AdvancedSelectionTools.invert_selection m1)
           (AdvancedSelectionTools.invert_selection m2) "intersection"
         = Ok (AdvancedSelectionTools.invert_selection u).
Proof.
  intros Hwf1 Hwf2 Hshape.
  pose proof Hwf1 as [Harr1 _]. pose proof Hwf2 as [Harr2 _].
  pose proof Harr1 as (Hr & Hc & _). pose proof Hshape as [Hsr Hsc].
  unfold AdvancedSelectionTools.combine_selections. simpl.
  rewrite !np_broadcast2_same_shape by done. simpl.
  eexists. split; [done|]. f_equal.
  apply array_ext.
  - by apply wf_mask_u8_tabulate.
  - apply wf_np_map. by apply wf_mask_u8_tabulate.
  - done.
  - intros y x Hy Hx. simpl in Hy, Hx.
    rewrite at2_u8_tabulate by done.
    unfold AdvancedSelectionTools.invert_selection.
    rewrite !at2_np_map by (done || lia || by apply wf_mask_u8_tabulate).
    rewrite at2_u8_tabulate by done.
    pose proof (wf_mask_at2 m1 y x Hwf1 Hy Hx) as Hv1.
    pose proof (wf_mask_at2 m2 y x Hwf2 ltac:(lia) ltac:(lia)) as Hv2.
    rewrite !(u8_id (255 - _)) by lia.
    rewrite (u8_id (Z.max _ _)) by lia.
    rewrite !u8_id by lia. lia.
Qed.

Lemma invert_union_is_intersection_witness :
  let m1 : Mask := NDArray 1 2 [[200; 10]] in
  let m2 : Mask := NDArray 1 2 [[50; 255]] in
  (wf_mask m1 ∧ wf_mask m2 ∧ same_shape m1 m2)
  ∧ ∃ u, AdvancedSelectionTools.combine_selections m1 m2 "union" = Ok u
         ∧ AdvancedSelectionTools.combine_selections
             (AdvancedSelectionTools.invert_selection m1)
             (AdvancedSelectionTools.invert_selection m2) "intersection"
           = Ok (AdvancedSelectionTools.invert_selection u).
Proof.
  assert (wf_mask (NDArray 1 2 [[200; 10]])) as Hwf1.
  { split; [unfold wf_array; simpl; repeat split; try lia|];
      repeat constructor; lia. }
  assert (wf_mask (NDArray 1 2 [[50; 255]])) as Hwf2.
  { split; [unfold wf_array; simpl; repeat split; try lia|];
      repeat constructor; lia. }
  assert (same_shape (NDArray 1 2 [[200; 10]]) (NDArray 1 2 [[50; 255]]))
    as Hshape by (split; reflexivity).
  split; [done|].
  exact (invert_union_is_intersection _ _ Hwf1 Hwf2 Hshape).
Defined.

(** X5: on two masks of one shape [combine_selections] never raises,
    whatever the operation string, and its result is again a mask of that
    shape with [uint8] samples. *)
Theorem combine_selections_returns_mask (m1 m2 : Mask) (operation : string) :
  wf_mask m1 → same_shape m1 m2 →
  ∃ out, AdvancedSelectionTools.combine_selections m1 m2 operation = Ok out
         ∧ wf_mask out ∧ same_shape out m1.
Proof.
  intros Hwf Hshape. pose proof Hwf as [Harr _].
  pose proof Harr as (Hr & Hc & _).
  unfold AdvancedSelectionTools.combine_selections.
  rewrite !np_broadcast2_same_shape by done.
  repeat (match goal with
          | |- context [if ?b then _ else _] => destruct b
          end); simpl; eexists;
    (split; [done|]); (split; [|done]);
    try (by apply wf_mask_u8_tabulate).
  split; [by apply wf_np_map|apply samples_np_map_u8].
Qed.

Lemma combine_selections_returns_mask_witness :
  let m1 : Mask := NDArray 1 2 [[200; 10]] in
  let m2 : Mask := NDArray 1 2 [[50; 255]] in
  (wf_mask m1 ∧ same_shape m1 m2)
  ∧ ∃ out, AdvancedSelectionTools.combine_selections
             m1 m2 "symmetric_difference" = Ok out
           ∧ wf_mask out ∧ same_shape out m1.
Proof.
  assert (wf_mask (NDArray 1 2 [[200; 10]])) as Hwf1.
  { split; [unfold wf_array; simpl; repeat split; try lia|];
      repeat constructor; lia. }
  assert (same_shape (NDArray 1 2 [[200; 10]]) (NDArray 1 2 [[50; 255]]))
    as Hshape by (split; reflexivity).
  split; [done|].
  exact (combine_selections_returns_mask _ _ "symmetric_difference" Hwf1 Hshape).
Defined.

(** X6: with a recognised operation and two masks whose shapes NumPy
    cannot broadcast, [combine_selections] raises [ValueError]. *)
Theorem combine_selections_shape_error (m1 m2 : Mask) (operation : string) :
  known_operation operation → incompatible_shapes m1 m2 →
  AdvancedSelectionTools.combine_selections m1 m2 operation = Err ValueError.
Proof.
  intros Hop Hinc. unfold AdvancedSelectionTools.combine_selections.
  rewrite !np_broadcast2_incompatible by done.
  destruct Hop as [-> | [-> | [-> | ->]]]; reflexivity.
Qed.

Lemma combine_selections_shape_error_witness :
  let m1 : Mask := NDArray 2 2 [[1; 2]; [3; 4]] in
  let m2 : Mask := NDArray 3 2 [[1; 2]; [3; 4]; [5; 6]] in
  (known_operation "union" ∧ incompatible_shapes m1 m2)
  ∧ AdvancedSelectionTools.combine_selections m1 m2 "union" = Err ValueError.
Proof.
  assert (known_operation "union") as Hop by (by left).
  assert (incompatible_shapes (NDArray 2 2 [[1; 2]; [3; 4]])
            (NDArray 3 2 [[1; 2]; [3; 4]; [5; 6]])) as Hinc
    by (left; simpl; lia).
  split; [done|].
  exact (combine_selections_shape_error _ _ "union" Hop Hinc).
Defined.

(** X7: [rectangular_select] gives the same selection whichever of the
    two corners is passed first, for any drawing primitive. *)
Theorem rectangular_select_corner_order
    (draw_rectangle : Mask → Z * Z * Z * Z → Z → Mask)
    (image : Image) (start end_ : Z * Z) :
  AdvancedSelectionTools.rectangular_select draw_rectangle image start end_
  = AdvancedSelectionTools.rectangular_select draw_rectangle image end_ start.
Proof.
  unfold AdvancedSelectionTools.rectangular_select.
  by rewrite (Z.min_comm (fst start)), (Z.min_comm (snd start)),
             (Z.max_comm (fst start)), (Z.max_comm (snd start)).
Qed.

(** ** What the flood fill selects *)

Section FloodFillSound.

Import MagicEraser.

Variables (img_array : ndarray rgb) (target_color : rgb) (tol : Z).

(** The loop only ever writes 255, and only into cells that pass the
    colour test. *)
Lemma flood_loop_sound (fuel : nat) (stack : list (Z * Z))
    (visited : ndarray bool) (mask m : ndarray Z) :
  flood_sound img_array target_color tol mask →
  flood_loop fuel img_array target_color tol stack visited mask = Some m →
  flood_sound img_array target_color tol m.
Proof.
  revert stack visited mask.
  induction fuel as [|fuel IH]; intros stack visited mask Hinv Hrun;
    [discriminate Hrun|].
  cbn [flood_loop] in Hrun. destruct stack as [|[x y] stack].
  - by injection Hrun as <-.
  - destruct ((x <? 0) || (x >=? ncols img_array) || (y <? 0)
              || (y >=? nrows img_array) || at2 visited y x) eqn:Hskip;
      [by eapply IH|].
    destruct (within_tolerance _ _) eqn:Hacc; [|by eapply IH].
    rewrite !orb_false_iff in Hskip.
    destruct Hskip as [[[[Hx0 Hx1] Hy0] Hy1] _].
    apply Z.ltb_ge in Hx0, Hy0.
    rewrite Z.geb_leb in Hx1, Hy1. apply Z.leb_gt in Hx1, Hy1.
    eapply IH; [|done].
    destruct Hinv as (Hrect & [Hr Hc] & Hcells).
    split; [by apply rectangular_set2|]. split; [done|].
    intros y' x' [Hy' Hx'].
    destruct (decide ((y', x') = (y, x))) as [[= -> ->]|Hne].
    + left. split; [|done].
      apply at2_set2_same; [done|]. split; lia.
    + rewrite at2_set2_other by (lia || done). by apply Hcells.
Qed.

(** A selected cell stays selected. *)
Lemma flood_loop_keeps (fuel : nat) (stack : list (Z * Z))
    (visited : ndarray bool) (mask m : ndarray Z) (y x : Z) :
  rectangular mask → same_shape mask img_array → in_bounds img_array y x →
  at2 mask y x = 255 →
  flood_loop fuel img_array target_color tol stack visited mask = Some m →
  at2 m y x = 255.
Proof.
  revert stack visited mask.
  induction fuel as [|fuel IH];
    intros stack visited mask Hrect Hshape Hyx Hsel Hrun;
    [discriminate Hrun|].
  cbn [flood_loop] in Hrun. destruct stack as [|[x' y'] stack].
  - by injection Hrun as <-.
  - destruct ((x' <? 0) || (x' >=? ncols img_array) || (y' <? 0)
              || (y' >=? nrows img_array) || at2 visited y' x') eqn:Hskip;
      [by eapply IH|].
    destruct (within_tolerance _ _); [|by eapply IH].
    rewrite !orb_false_iff in Hskip.
    destruct Hskip as [[[[Hx0 Hx1] Hy0] Hy1] _].
    apply Z.ltb_ge in Hx0, Hy0.
    rewrite Z.geb_leb in Hx1, Hy1. apply Z.leb_gt in Hx1, Hy1.
    eapply IH; [| | |  |done]; [by apply rectangular_set2|done|done|].
    destruct Hshape as [Hr Hc], Hyx as [Hy Hx].
    destruct (decide ((y, x) = (y', x'))) as [[= -> ->]|Hne].
    + apply at2_set2_same; [done|]. split; lia.
    + rewrite at2_set2_other by (lia || done). done.
Qed.

Lemma flood_sound_zeros :
  flood_sound img_array target_color tol
              (np_full (nrows img_array) (ncols img_array) 0).
Proof.
  split; [apply rectangular_full|]. split; [done|].
  intros y x [Hy Hx]. right. by apply at2_np_full.
Qed.

Lemma at2_global_color_select (y x : Z) :
  wf_array img_array → in_bounds img_array y x →
  at2 (_global_color_select img_array target_color tol) y x
  = if within_tolerance (sum_sq (at2 img_array y x) target_color) tol
    then 255 else 0.
Proof.
  intros Hwf [Hy Hx]. unfold _global_color_select.
  rewrite at2_np_map by done.
  by destruct (within_tolerance _ _).
Qed.

End FloodFillSound.

(** X8: the contiguous selection holds only the samples 0 and 255, every
    pixel it selects passes the colour test of the code, which compares
    the sum of the [uint8]-wrapped squared channel differences with the
    square of the tolerance (not the Euclidean distance), and it is
    contained in the global selection made with the same target and
    tolerance. *)
Theorem flood_fill_within_global_selection
    (img_array : ndarray rgb) (start : Z * Z) (target_color : rgb) (tol : Z) :
  wf_array img_array →
  ∃ m, MagicEraser._flood_fill_select img_array start target_color tol = Some m
       ∧ same_shape m img_array
       ∧ ∀ y x, in_bounds img_array y x →
           (at2 m y x = 0 ∨ at2 m y x = 255)
           ∧ (at2 m y x = 255 →
              passes_colour_test img_array target_color tol y x
              ∧ at2 (MagicEraser._global_color_select
                       img_array target_color tol) y x = 255).
Proof.
  intros Hwf.
  destruct (flood_fill_select_total img_array start target_color tol)
    as [m Hm].
  exists m. split; [done|].
  unfold MagicEraser._flood_fill_select in Hm.
  apply flood_loop_sound in Hm; [|apply flood_sound_zeros].
  destruct Hm as (_ & Hshape & Hcells). split; [done|].
  intros y x Hyx. destruct (Hcells y x Hyx) as [[Hsel Hacc]|Hzero].
  - split; [by right|]. intros _. split; [done|].
    rewrite at2_global_color_select by done.
    unfold passes_colour_test in Hacc. by rewrite Hacc.
  - split; [by left|]. intros Hsel. rewrite Hzero in Hsel. discriminate Hsel.
Qed.

Lemma flood_fill_within_global_selection_witness :
  let img_array : ndarray rgb :=
    NDArray 1 3 [[(10, 10, 10); (200, 0, 0); (10, 10, 10)]] in
  wf_array img_array ∧
  ∃ m, MagicEraser._flood_fill_select img_array (0, 0) (10, 10, 10) 5 = Some m
       ∧ same_shape m img_array
       ∧ ∀ y x, in_bounds img_array y x →
           (at2 m y x = 0 ∨ at2 m y x = 255)
           ∧ (at2 m y x = 255 →
              passes_colour_test img_array (10, 10, 10) 5 y x
              ∧ at2 (MagicEraser._global_color_select
                       img_array (10, 10, 10) 5) y x = 255).
Proof.
  assert (wf_array (NDArray 1 3 [[(10, 10, 10); (200, 0, 0); (10, 10, 10)]]
                    : ndarray rgb)) as Hwf
    by (unfold wf_array; simpl; repeat split; try lia; repeat constructor).
  split; [exact Hwf|].
  exact (flood_fill_within_global_selection _ (0, 0) (10, 10, 10) 5 Hwf).
Defined.

(** The square of a multiple of 16 wraps to 0 in [uint8]. *)
Lemma sq_diff_sixteen (a b : Z) : (16 | a - b) → sq_diff a b = 0.
Proof.
  intros [k Hk]. unfold sq_diff, u8. rewrite Hk.
  replace 256 with (16 * 16) by reflexivity.
  rewrite (Z.mul_comm k 16), Z.mul_mod_distr_l by lia.
  replace (16 * (k mod 16) * (16 * (k mod 16)))
    with ((k mod 16) * (k mod 16) * (16 * 16)) by ring.
  apply Z_mod_mult.
Qed.

Lemma sum_sq_sixteens (c t : rgb) : differ_by_sixteens c t → sum_sq c t = 0.
Proof.
  destruct c as [[r1 g1] b1], t as [[r2 g2] b2]. intros (Hr & Hg & Hb).
  unfold sum_sq. by rewrite !sq_diff_sixteen.
Qed.

(** X26: the colour test wraps.  A pixel whose channels differ from the
    target colour by multiples of 16 has the wrapped squared distance 0,
    so the global selection selects it at every tolerance that is not
    negative, even at tolerance 0, however far its colour is from the
    target. *)
Theorem global_select_wraps
    (img_array : ndarray rgb) (target_color : rgb) (tol y x : Z) :
  wf_array img_array → in_bounds img_array y x → 0 ≤ tol →
  differ_by_sixteens (at2 img_array y x) target_color →
  sum_sq (at2 img_array y x) target_color = 0
  ∧ at2 (MagicEraser._global_color_select img_array target_color tol) y x
    = 255.
Proof.
  intros Hwf Hyx Htol Hdiff.
  pose proof (sum_sq_sixteens _ _ Hdiff) as Hsum. split; [done|].
  rewrite at2_global_color_select by done. rewrite Hsum.
  unfold MagicEraser.within_tolerance.
  assert ((0 <=? tol) && (0 <=? tol * tol) = true) as ->; [|done].
  apply andb_true_iff. split; apply Z.leb_le; nia.
Qed.

Lemma global_select_wraps_witness :
  let img_array : ndarray rgb := NDArray 1 2 [[(0, 0, 0); (240, 16, 0)]] in
  (wf_array img_array ∧ in_bounds img_array 0 1 ∧ 0 ≤ 0
   ∧ differ_by_sixteens (at2 img_array 0 1) (0, 0, 0))
  ∧ sum_sq (at2 img_array 0 1) (0, 0, 0) = 0
  ∧ at2 (MagicEraser._global_color_select img_array (0, 0, 0) 0) 0 1 = 255.
Proof.
  assert (wf_array (NDArray 1 2 [[(0, 0, 0); (240, 16, 0)]] : ndarray rgb))
    as Hwf
    by (unfold wf_array; simpl; repeat split; try lia; repeat constructor).
  assert (in_bounds (NDArray 1 2 [[(0, 0, 0); (240, 16, 0)]] : ndarray rgb)
            0 1) as Hin by (unfold in_bounds; simpl; lia).
  assert (0 ≤ 0) as Htol by lia.
  assert (differ_by_sixteens
            (at2 (NDArray 1 2 [[(0, 0, 0); (240, 16, 0)]] : ndarray rgb) 0 1)
            (0, 0, 0)) as Hdiff.
  { split; [by exists 15|]. split; [by exists 1|by exists 0]. }
  split; [done|].
  exact (global_select_wraps _ (0, 0, 0) 0 0 1 Hwf Hin Htol Hdiff).
Defined.

Lemma within_tolerance_same (c : rgb) (tol : Z) :
  0 ≤ tol → MagicEraser.within_tolerance (sum_sq c c) tol = true.
Proof.
  intros Htol. rewrite sum_sq_same. unfold MagicEraser.within_tolerance.
  apply andb_true_iff. split; apply Z.leb_le; nia.
Qed.

Lemma within_tolerance_negative (s tol : Z) :
  tol < 0 → MagicEraser.within_tolerance s tol = false.
Proof.
  intros Htol. unfold MagicEraser.within_tolerance.
  destruct (Z.leb_spec 0 tol); [lia|done].
Qed.

(** X9: with a tolerance that is not negative and the seed's own colour
    as target, the seed pixel is selected, by the flood fill and by the
    global selection. *)
Theorem seed_is_selected
    (img_array : ndarray rgb) (start : Z * Z) (tol : Z) :
  wf_array img_array → in_bounds img_array (snd start) (fst start) →
  0 ≤ tol →
  let target_color := at2 img_array (snd start) (fst start) in
  (∃ m, MagicEraser._flood_fill_select img_array start target_color tol
        = Some m
        ∧ at2 m (snd start) (fst start) = 255)
  ∧ at2 (MagicEraser._global_color_select img_array target_color tol)
        (snd start) (fst start) = 255.
Proof.
  intros Hwf Hstart Htol target_color. split.
  - destruct (flood_fill_select_total img_array start target_color tol)
      as [m Hm].
    exists m. split; [done|].
    unfold MagicEraser._flood_fill_select, MagicEraser.flood_fuel in Hm.
    match type of Hm with
    | context [(?k + 2)%nat] =>
        replace (k + 2)%nat with (S (k + 1)) in Hm by lia
    end.
    cbn [MagicEraser.flood_loop] in Hm.
    destruct start as [x y]. destruct Hstart as [Hy Hx]. simpl in Hy, Hx.
    assert ((x <? 0) || (x >=? ncols img_array) || (y <? 0)
            || (y >=? nrows img_array)
            || at2 (np_full (nrows img_array) (ncols img_array) false) y x
            = false) as Hskip.
    { rewrite at2_np_full by done. rewrite !orb_false_iff.
      rewrite !Z.ltb_ge. rewrite !Z.geb_leb, !Z.leb_gt. lia. }
    rewrite Hskip in Hm.
    subst target_color. cbn [fst snd] in Hm.
    rewrite within_tolerance_same in Hm by done.
    eapply flood_loop_keeps; [| | |  |exact Hm].
    + apply rectangular_set2, rectangular_full.
    + done.
    + by split.
    + apply at2_set2_same; [apply rectangular_full|by split].
  - rewrite at2_global_color_select by done.
    by rewrite within_tolerance_same.
Qed.

Lemma seed_is_selected_witness :
  let img_array : ndarray rgb :=
    NDArray 1 3 [[(10, 10, 10); (200, 0, 0); (10, 10, 10)]] in
  (wf_array img_array ∧ in_bounds img_array 0 1 ∧ 0 ≤ 0)
  ∧ at2 (MagicEraser._global_color_select img_array (200, 0, 0) 0) 0 1 = 255.
Proof.
  assert (wf_array (NDArray 1 3 [[(10, 10, 10); (200, 0, 0); (10, 10, 10)]]
                    : ndarray rgb)) as Hwf
    by (unfold wf_array; simpl; repeat split; try lia; repeat constructor).
  assert (in_bounds (NDArray 1 3 [[(10, 10, 10); (200, 0, 0); (10, 10, 10)]]
                     : ndarray rgb) 0 1) as Hin
    by (unfold in_bounds; simpl; lia).
  assert (0 ≤ 0) as Htol by lia.
  split; [done|].
  exact (proj2 (seed_is_selected _ (1, 0) 0 Hwf Hin Htol)).
Defined.

Lemma wf_to_rgb (image : Image) : wf_image image → wf_array (to_rgb image).
Proof. destruct image; simpl; try done; apply wf_np_map. Qed.

Lemma wf_to_rgba (image : Image) : wf_image image → wf_array (to_rgba image).
Proof. destruct image; simpl; try done; apply wf_np_map. Qed.

(** With a negative tolerance the loop marks nothing. *)
Lemma flood_loop_negative (img_array : ndarray rgb) (target_color : rgb)
    (tol : Z) (fuel : nat) (stack : list (Z * Z)) (visited : ndarray bool)
    (mask : ndarray Z) :
  tol < 0 → (length stack < fuel)%nat →
  MagicEraser.flood_loop fuel img_array target_color tol stack visited mask
  = Some mask.
Proof.
  intros Htol. revert stack.
  induction fuel as [|fuel IH]; intros stack Hfuel; [lia|].
  cbn [MagicEraser.flood_loop]. destruct stack as [|[x y] stack]; [done|].
  simpl in Hfuel. rewrite within_tolerance_negative by done.
  destruct (_ || _); apply IH; lia.
Qed.

(** X10: a negative tolerance selects nothing, not even the seed: with
    smoothing switched off, [magic_select] returns the all-zero mask of
    the image's size in both modes and for every seed point. *)
Theorem negative_tolerance_selects_nothing
    (GaussianBlur : ndarray Z → Z * Z → Q → ndarray Z)
    (self : MagicEraser.t) (image : Image) (point : Z * Z)
    (tol : Z) (contiguous : option bool) :
  wf_image image → tol < 0 →
  MagicEraser.anti_alias self = false → MagicEraser.feather_radius self ≤ 0 →
  ∃ m, MagicEraser.magic_select GaussianBlur self image point
                                (Some tol) contiguous = Some m
       ∧ mask_fits m image
       ∧ ∀ y x, 0 ≤ y < height image → 0 ≤ x < width image → at2 m y x = 0.
Proof.
  intros Hwf Htol Haa Hfeather. unfold MagicEraser.magic_select.
  rewrite Haa.
  assert ((0 <? MagicEraser.feather_radius self) = false) as ->
    by (apply Z.ltb_ge; lia).
  assert (MagicEraser.py_or (Some tol) (MagicEraser.tolerance self) = tol)
    as -> by (unfold MagicEraser.py_or; destruct (Z.eqb_spec tol 0); [lia|done]).
  destruct (_ || _).
  - eexists. split; [done|]. split; [done|].
    intros y x Hy Hx. by apply at2_np_full.
  - destruct (match contiguous with
              | Some c => c
              | None => MagicEraser.contiguous self
              end).
    + unfold MagicEraser._flood_fill_select.
      rewrite flood_loop_negative
        by (done || unfold MagicEraser.flood_fuel; simpl; lia).
      simpl. eexists. split; [done|].
      split; [split; simpl; by rewrite ?nrows_to_rgb, ?ncols_to_rgb|].
      intros y x Hy Hx. apply at2_np_full;
        by rewrite ?nrows_to_rgb, ?ncols_to_rgb.
    + simpl. eexists. split; [done|].
      split; [split; simpl; by rewrite ?nrows_to_rgb, ?ncols_to_rgb|].
      intros y x Hy Hx.
      rewrite at2_global_color_select
        by (by apply wf_to_rgb || split;
            by rewrite ?nrows_to_rgb, ?ncols_to_rgb).
      by rewrite within_tolerance_negative.
Qed.

Lemma negative_tolerance_selects_nothing_witness :
  let image := ImgRGB (NDArray 1 2 [[(1, 2, 3); (1, 2, 3)]]) in
  let blur := λ (m : ndarray Z) (_ : Z * Z) (_ : Q), m in
  let self := MagicEraser.Make 32 true false false 0 in
  (wf_image image ∧ -1 < 0)
  ∧ ∃ m, MagicEraser.magic_select blur self image (0, 0) (Some (-1)) None
         = Some m
         ∧ mask_fits m image
         ∧ ∀ y x, 0 ≤ y < height image → 0 ≤ x < width image → at2 m y x = 0.
Proof.
  assert (wf_image (ImgRGB (NDArray 1 2 [[(1, 2, 3); (1, 2, 3)]]))) as Hwf
    by (unfold wf_image, wf_array; simpl; repeat split; try lia;
        repeat constructor).
  assert (-1 < 0) as Htol by lia.
  split; [done|].
  refine (negative_tolerance_selects_nothing
            (λ m _ _, m) (MagicEraser.Make 32 true false false 0)
            _ (0, 0) (-1) None Hwf Htol _ _); simpl; done || lia.
Defined.

(** ** Erasing, pixel by pixel *)

(** The branch of the colour tuples: a fourth component of 255 is added
    to a tuple of three, and the tuple is assigned under the mask. *)
Lemma erase_tuple_eq (image : Image) (mask : Mask) (c : list Z) :
  length c = 3%nat ∨ length c = 4%nat →
  MagicEraser.erase_selection image mask (MagicEraser.ModeTuple c)
  = (img ← np_mask_assign (to_rgba image) (MagicEraser.above_threshold mask)
             (MagicEraser.colour4
                (if bool_decide (length c = 3%nat) then c ++ [255] else c));
     Ok (ImgRGBA img)).
Proof.
  intros Hlen. unfold MagicEraser.erase_selection.
  by rewrite bool_decide_eq_true_2 by done.
Qed.

Section Erase.

Import MagicEraser.

Variables (image : Image) (mask : Mask).
Hypothesis Hfit : mask_fits mask image.

Lemma erase_transparent_eq :
  erase_selection image mask (ModeStr "transparent")
  = Ok (ImgRGBA
          (np_tabulate (height image) (width image)
             (λ y x, set_alpha (at2 (to_rgba image) y x)
                       (if 128 <? at2 mask y x then 0
                        else alpha (at2 (to_rgba image) y x))))).
Proof.
  destruct Hfit as [Hr Hc]. unfold erase_selection. simpl.
  rewrite np_broadcast2_same_shape
    by (split; by rewrite ?nrows_to_rgba, ?ncols_to_rgba).
  simpl. unfold np_assign. simpl.
  rewrite Hr, Hc, nrows_to_rgba, ncols_to_rgba, !Z.eqb_refl. simpl.
  do 2 f_equal. apply np_tabulate_ext. intros y x Hy Hx.
  rewrite !bidx_in_range by done. by rewrite at2_tabulate.
Qed.

Lemma mask_assign_fits (v : result rgba) :
  np_mask_assign (to_rgba image) (above_threshold mask) v
  = (c ← v;
     Ok (np_tabulate (height image) (width image)
           (λ y x, if at2 (above_threshold mask) y x then c
                   else at2 (to_rgba image) y x))).
Proof.
  destruct Hfit as [Hr Hc]. unfold np_mask_assign, shape_eqb. simpl.
  by rewrite Hr, Hc, nrows_to_rgba, ncols_to_rgba, !Z.eqb_refl.
Qed.

Lemma erase_solid_eq (erase_mode : erase_mode_t) (c : rgba) :
  wf_array mask → solid_colour erase_mode = Some c →
  erase_selection image mask erase_mode
  = Ok (ImgRGBA
          (np_tabulate (height image) (width image)
             (λ y x, if 128 <? at2 mask y x then c
                     else at2 (to_rgba image) y x))).
Proof.
  intros Hwf Hsolid.
  assert (∀ col : result rgba,
            col = Ok c →
            (img ← np_mask_assign (to_rgba image) (above_threshold mask) col;
             Ok (ImgRGBA img))
            = Ok (ImgRGBA
                    (np_tabulate (height image) (width image)
                       (λ y x, if 128 <? at2 mask y x then c
                               else at2 (to_rgba image) y x)))) as Hgoal.
  { intros col ->. rewrite mask_assign_fits. simpl. do 2 f_equal.
    destruct Hfit as [Hr Hc].
    apply np_tabulate_ext. intros y x Hy Hx.
    unfold above_threshold. by rewrite at2_np_map by (done || lia). }
  destruct erase_mode as [s|col].
  - simpl in Hsolid. destruct (String.eqb_spec s "white") as [->|Hw].
    + injection Hsolid as Hcol. apply Hgoal. by rewrite Hcol.
    + destruct (String.eqb_spec s "black") as [->|Hb]; [|discriminate Hsolid].
      injection Hsolid as Hcol. apply Hgoal. by rewrite Hcol.
  - assert (length col = 3%nat ∨ length col = 4%nat) as Hlen.
    { destruct col as [|r [|g [|b [|a [|? ?]]]]];
        try discriminate Hsolid; [by left|by right]. }
    rewrite erase_tuple_eq by done. apply Hgoal.
    destruct col as [|r [|g [|b [|a [|? ?]]]]]; try discriminate Hsolid;
      cbn [solid_colour] in Hsolid; unfold colour4;
      rewrite ?bool_decide_eq_true_2, ?bool_decide_eq_false_2
        by (simpl; lia);
      cbn [app].
    + destruct (forallb is_uint8 [r; g; b]) eqn:Hrange;
        [|discriminate Hsolid].
      injection Hsolid as <-.
      change [r; g; b; 255] with ([r; g; b] ++ [255]).
      rewrite forallb_app, Hrange. reflexivity.
    + destruct (forallb is_uint8 [r; g; b; a]) eqn:Hrange;
        [|discriminate Hsolid].
      by injection Hsolid as <-.
Qed.

(** A colour tuple with a component outside 0..255 cannot be stored. *)
Lemma erase_overflow_eq (erase_mode : erase_mode_t) :
  colour_out_of_range erase_mode →
  erase_selection image mask erase_mode = Err OverflowError.
Proof.
  destruct erase_mode as [s|col]; [intros []|]. intros [Hlen Hrange].
  rewrite erase_tuple_eq, mask_assign_fits by done.
  assert (colour4 (if bool_decide (length col = 3%nat)
                   then col ++ [255] else col) = Err OverflowError) as ->;
    [|done].
  unfold colour4. destruct (bool_decide _).
  - by rewrite forallb_app, Hrange.
  - by rewrite Hrange.
Qed.

End Erase.

(** X11: selecting on a flat-colour image and erasing the selection.
    With smoothing switched off, a seed inside the image and a tolerance
    in force that is not negative, [magic_select] selects every pixel in
    both modes, and [erase_selection] in mode ['transparent'] with that
    mask makes every pixel fully transparent. *)
Theorem select_flat_then_erase
    (GaussianBlur : ndarray Z → Z * Z → Q → ndarray Z)
    (self : MagicEraser.t) (image : Image) (point : Z * Z) (colour : rgb)
    (tolerance : option Z) (contiguous : option bool) :
  wf_image image →
  in_bounds (to_rgb image) (snd point) (fst point) →
  (∀ y x, in_bounds (to_rgb image) y x → at2 (to_rgb image) y x = colour) →
  0 ≤ MagicEraser.py_or tolerance (MagicEraser.tolerance self) →
  MagicEraser.anti_alias self = false → MagicEraser.feather_radius self ≤ 0 →
  ∃ m out,
    MagicEraser.magic_select GaussianBlur self image point tolerance contiguous
    = Some m
    ∧ mask_fits m image
    ∧ (∀ y x, 0 ≤ y < height image → 0 ≤ x < width image → at2 m y x = 255)
    ∧ MagicEraser.erase_selection image m (MagicEraser.ModeStr "transparent")
      = Ok (ImgRGBA out)
    ∧ ∀ y x, 0 ≤ y < height image → 0 ≤ x < width image →
             MagicEraser.alpha (at2 out y x) = 0.
Proof.
  intros Hwf Hpoint Hflat Htol Haa Hfeather.
  assert (∃ m, MagicEraser.magic_select GaussianBlur self image point
                 tolerance contiguous = Some m
               ∧ same_shape m (to_rgb image)
               ∧ ∀ y x, in_bounds (to_rgb image) y x → at2 m y x = 255)
    as (m & Hm & Hshape & Hall).
  { unfold MagicEraser.magic_select. rewrite Haa.
    assert ((0 <? MagicEraser.feather_radius self) = false) as ->
      by (apply Z.ltb_ge; lia).
    assert ((fst point >=? ncols (to_rgb image))
            || (snd point >=? nrows (to_rgb image))
            || (fst point <? 0) || (snd point <? 0) = false) as ->.
    { destruct Hpoint as [Hy Hx]. rewrite !orb_false_iff.
      rewrite !Z.ltb_ge, !Z.geb_leb, !Z.leb_gt. lia. }
    rewrite (Hflat _ _ Hpoint).
    destruct (match contiguous with
              | Some c => c
              | None => MagicEraser.contiguous self
              end).
    - destruct (flood_fill_select_flat (to_rgb image) point colour _
                  Hpoint Hflat Htol) as (m & -> & Hshape & Hall).
      simpl. by exists m.
    - simpl. eexists. split; [done|]. split; [done|].
      intros y x Hyx.
      rewrite at2_global_color_select by (by apply wf_to_rgb || done).
      by rewrite (Hflat y x Hyx), within_tolerance_same. }
  assert (mask_fits m image) as Hfit.
  { destruct Hshape as [Hr Hc]. split; by rewrite ?Hr, ?Hc,
      ?nrows_to_rgb, ?ncols_to_rgb. }
  assert (∀ y x, 0 ≤ y < height image → 0 ≤ x < width image →
                 at2 m y x = 255) as Hall'.
  { intros y x Hy Hx. apply Hall.
    split; by rewrite ?nrows_to_rgb, ?ncols_to_rgb. }
  exists m. eexists. split; [done|]. split; [done|]. split; [done|].
  split; [by apply erase_transparent_eq|].
  intros y x Hy Hx. rewrite at2_tabulate by done.
  rewrite (Hall' y x Hy Hx). simpl.
  by destruct (at2 (to_rgba image) y x) as [[[r g] b] a].
Qed.

Lemma select_flat_then_erase_witness :
  let image := ImgRGB (NDArray 2 2 [[(255, 0, 0); (255, 0, 0)];
                                    [(255, 0, 0); (255, 0, 0)]]) in
  let blur := λ (m : ndarray Z) (_ : Z * Z) (_ : Q), m in
  let self := MagicEraser.Make 32 true false false 0 in
  (wf_image image ∧ in_bounds (to_rgb image) 1 1)
  ∧ ∃ m out,
      MagicEraser.magic_select blur self image (1, 1) (Some 10) (Some true)
      = Some m
      ∧ mask_fits m image
      ∧ (∀ y x, 0 ≤ y < height image → 0 ≤ x < width image → at2 m y x = 255)
      ∧ MagicEraser.erase_selection image m (MagicEraser.ModeStr "transparent")
        = Ok (ImgRGBA out)
      ∧ ∀ y x, 0 ≤ y < height image → 0 ≤ x < width image →
               MagicEraser.alpha (at2 out y x) = 0.
Proof.
  assert (wf_image (ImgRGB (NDArray 2 2 [[(255, 0, 0); (255, 0, 0)];
                                         [(255, 0, 0); (255, 0, 0)]])))
    as Hwf by (unfold wf_image, wf_array; simpl; repeat split; try lia;
               repeat constructor).
  assert (in_bounds (to_rgb (ImgRGB (NDArray 2 2 [[(255, 0, 0); (255, 0, 0)];
                                         [(255, 0, 0); (255, 0, 0)]]))) 1 1)
    as Hin by (unfold in_bounds; simpl; lia).
  split; [done|].
  refine (select_flat_then_erase
            (λ m _ _, m) (MagicEraser.Make 32 true false false 0)
            _ (1, 1) (255, 0, 0) (Some 10) (Some true) Hwf Hin _ _ _ _);
    [|simpl; lia|done|simpl; lia].
  intros y x [Hy Hx]. simpl in Hy, Hx.
  assert (y = 0 ∨ y = 1) as [-> | ->] by lia;
    (assert (x = 0 ∨ x = 1) as [-> | ->] by lia); reflexivity.
Defined.

(** X12: the solid modes.  With a mask of the image's size, ['white'],
    ['black'] and a colour tuple of three or four components, each in
    0..255, paint every pixel whose mask sample is above 128 with that
    colour (a tuple of three components at full opacity) and leave every
    other pixel of the 'RGBA' promotion of the image as it was. *)
Theorem erase_solid_paints (image : Image) (mask : Mask)
    (erase_mode : MagicEraser.erase_mode_t) (c : rgba) :
  wf_array mask → mask_fits mask image → solid_colour erase_mode = Some c →
  ∃ out : ndarray rgba,
    MagicEraser.erase_selection image mask erase_mode = Ok (ImgRGBA out)
    ∧ nrows out = height image ∧ ncols out = width image
    ∧ ∀ y x, 0 ≤ y < height image → 0 ≤ x < width image →
             at2 out y x = if 128 <? at2 mask y x then c
                           else at2 (to_rgba image) y x.
Proof.
  intros Hwf Hfit Hsolid.
  rewrite (erase_solid_eq image mask Hfit erase_mode c Hwf Hsolid).
  eexists. split; [done|]. split; [done|]. split; [done|].
  intros y x Hy Hx. by rewrite at2_tabulate.
Qed.

Lemma erase_solid_paints_witness :
  let image := ImgRGB (NDArray 1 2 [[(1, 2, 3); (4, 5, 6)]]) in
  let mask : Mask := NDArray 1 2 [[200; 128]] in
  let erase_mode := MagicEraser.ModeTuple [9; 8; 7] in
  (wf_array mask ∧ mask_fits mask image
   ∧ solid_colour erase_mode = Some (9, 8, 7, 255))
  ∧ MagicEraser.erase_selection image mask erase_mode
    = Ok (ImgRGBA (NDArray 1 2 [[(9, 8, 7, 255); (4, 5, 6, 255)]])).
Proof.
  assert (wf_array (NDArray 1 2 [[200; 128]])) as Hwf
    by (unfold wf_array; simpl; repeat split; try lia; repeat constructor).
  assert (mask_fits (NDArray 1 2 [[200; 128]])
            (ImgRGB (NDArray 1 2 [[(1, 2, 3); (4, 5, 6)]]))) as Hfit
    by (split; reflexivity).
  assert (solid_colour (MagicEraser.ModeTuple [9; 8; 7])
          = Some (9, 8, 7, 255)) as Hsolid by reflexivity.
  split; [done|].
  destruct (erase_solid_paints _ _ _ _ Hwf Hfit Hsolid) as (out & Hout & _).
  rewrite Hout. vm_compute in Hout. injection Hout as <-. reflexivity.
Defined.

(** X13: in a solid mode, that is ['white'], ['black'] or any colour
    tuple of three or four components, a mask whose shape differs from
    the image's makes [erase_selection] raise [IndexError]: the index is
    checked before the colour is converted. *)
Theorem erase_solid_shape_error (image : Image) (mask : Mask)
    (erase_mode : MagicEraser.erase_mode_t) :
  solid_mode erase_mode →
  nrows mask ≠ height image ∨ ncols mask ≠ width image →
  MagicEraser.erase_selection image mask erase_mode = Err IndexError.
Proof.
  intros Hsolid Hshape.
  assert (∀ col, (img ← np_mask_assign (to_rgba image)
                          (MagicEraser.above_threshold mask) col;
                  Ok (ImgRGBA img)) = Err IndexError) as Hgoal.
  { intros col. unfold np_mask_assign, shape_eqb. simpl.
    rewrite nrows_to_rgba, ncols_to_rgba.
    assert ((nrows mask =? height image) && (ncols mask =? width image)
            = false) as ->; [|done].
    apply andb_false_iff.
    destruct Hshape as [H|H]; [left|right]; by apply Z.eqb_neq. }
  destruct erase_mode as [s|col]; simpl in Hsolid.
  - destruct Hsolid as [-> | ->]; by apply Hgoal.
  - rewrite erase_tuple_eq by done. by apply Hgoal.
Qed.

Lemma erase_solid_shape_error_witness :
  let image := ImgRGB (NDArray 1 2 [[(1, 2, 3); (4, 5, 6)]]) in
  let mask : Mask := NDArray 1 1 [[200]] in
  (solid_mode (MagicEraser.ModeTuple [300; 0; 0])
   ∧ (nrows mask ≠ height image ∨ ncols mask ≠ width image))
  ∧ MagicEraser.erase_selection image mask (MagicEraser.ModeTuple [300; 0; 0])
    = Err IndexError.
Proof.
  assert (solid_mode (MagicEraser.ModeTuple [300; 0; 0])) as Hsolid
    by (left; reflexivity).
  assert (nrows (NDArray 1 1 [[200]] : Mask)
          ≠ height (ImgRGB (NDArray 1 2 [[(1, 2, 3); (4, 5, 6)]]))
          ∨ ncols (NDArray 1 1 [[200]] : Mask)
            ≠ width (ImgRGB (NDArray 1 2 [[(1, 2, 3); (4, 5, 6)]])))
    as Hshape by (right; simpl; lia).
  split; [done|].
  exact (erase_solid_shape_error _ _ _ Hsolid Hshape).
Defined.

(** Every erase mode is ['transparent'], a solid mode with a colour that
    can be stored, a colour tuple that cannot, or unrecognised. *)
Lemma erase_mode_cases (erase_mode : MagicEraser.erase_mode_t) :
  erase_mode = MagicEraser.ModeStr "transparent"
  ∨ (∃ c, solid_colour erase_mode = Some c)
  ∨ colour_out_of_range erase_mode
  ∨ ¬ known_erase_mode erase_mode.
Proof.
  destruct erase_mode as [s|col].
  - simpl. destruct (String.eqb_spec s "transparent") as [->|Ht]; [by left|].
    right. destruct (String.eqb_spec s "white") as [->|Hw]; [left; by eexists|].
    destruct (String.eqb_spec s "black") as [->|Hb]; [left; by eexists|].
    right. right. tauto.
  - right.
    destruct col as [|r [|g [|b [|a [|? ?]]]]];
      try (right; right; simpl; lia).
    + cbn [solid_colour colour_out_of_range].
      destruct (forallb MagicEraser.is_uint8 [r; g; b]);
        [left; by eexists|right; left; split; [by left|done]].
    + cbn [solid_colour colour_out_of_range].
      destruct (forallb MagicEraser.is_uint8 [r; g; b; a]);
        [left; by eexists|right; left; split; [by right|done]].
Qed.

(** X14: erasing is idempotent.  With a mask of the image's size, and in
    every mode but a colour tuple of three or four components with one
    outside 0..255 (which raises [OverflowError]), [erase_selection]
    returns an image, and erasing that image again, with the same mask
    and mode, returns it unchanged. *)
Theorem erase_selection_idempotent (image : Image) (mask : Mask)
    (erase_mode : MagicEraser.erase_mode_t) :
  wf_array mask → mask_fits mask image → ¬ colour_out_of_range erase_mode →
  ∃ out, MagicEraser.erase_selection image mask erase_mode = Ok out
         ∧ MagicEraser.erase_selection out mask erase_mode = Ok out.
Proof.
  intros Hwf Hfit Hrange.
  destruct (erase_mode_cases erase_mode)
    as [->|[[c Hsolid]|[Hover|Hunknown]]]; [| |done|].
  - pose proof (erase_transparent_eq image mask Hfit) as Hfirst.
    match type of Hfirst with
    | _ = Ok (ImgRGBA ?T) =>
        exists (ImgRGBA T); split; [done|];
        assert (mask_fits mask (ImgRGBA T)) as Hfit' by exact Hfit;
        rewrite (erase_transparent_eq _ mask Hfit')
    end.
    simpl. do 2 f_equal.
    apply np_tabulate_ext. intros y x Hy Hx.
    rewrite at2_tabulate by done.
    destruct (at2 (to_rgba image) y x) as [[[r g] b] a].
    by destruct (128 <? at2 mask y x).
  - pose proof (erase_solid_eq image mask Hfit erase_mode c Hwf Hsolid)
      as Hfirst.
    match type of Hfirst with
    | _ = Ok (ImgRGBA ?T) =>
        exists (ImgRGBA T); split; [done|];
        assert (mask_fits mask (ImgRGBA T)) as Hfit' by exact Hfit;
        rewrite (erase_solid_eq _ mask Hfit' erase_mode c Hwf Hsolid)
    end.
    simpl. do 2 f_equal.
    apply np_tabulate_ext. intros y x Hy Hx.
    rewrite at2_tabulate by done.
    by destruct (128 <? at2 mask y x).
  - eexists. split; [by apply erase_selection_unknown|].
    by rewrite erase_selection_unknown by done.
Qed.

Lemma erase_selection_idempotent_witness :
  let image := ImgRGB (NDArray 1 2 [[(1, 2, 3); (4, 5, 6)]]) in
  let mask : Mask := NDArray 1 2 [[200; 128]] in
  (wf_array mask ∧ mask_fits mask image
   ∧ ¬ colour_out_of_range (MagicEraser.ModeTuple [9; 8; 7; 6]))
  ∧ ∃ out, MagicEraser.erase_selection image mask
             (MagicEraser.ModeTuple [9; 8; 7; 6]) = Ok out
           ∧ MagicEraser.erase_selection out mask
               (MagicEraser.ModeTuple [9; 8; 7; 6]) = Ok out.
Proof.
  assert (wf_array (NDArray 1 2 [[200; 128]])) as Hwf
    by (unfold wf_array; simpl; repeat split; try lia; repeat constructor).
  assert (mask_fits (NDArray 1 2 [[200; 128]])
            (ImgRGB (NDArray 1 2 [[(1, 2, 3); (4, 5, 6)]]))) as Hfit
    by (split; reflexivity).
  assert (¬ colour_out_of_range (MagicEraser.ModeTuple [9; 8; 7; 6]))
    as Hrange by (intros [_ Hfalse]; discriminate Hfalse).
  split; [done|].
  exact (erase_selection_idempotent _ _ (MagicEraser.ModeTuple [9; 8; 7; 6])
           Hwf Hfit Hrange).
Defined.

(** X15: erasing an empty selection changes nothing.  When no sample of
    the mask is above 128, [erase_selection] returns the 'RGBA' promotion
    of the image, in every mode but a colour tuple of three or four
    components with one outside 0..255, which raises [OverflowError]
    even though nothing is selected. *)
Theorem erase_empty_selection (image : Image) (mask : Mask)
    (erase_mode : MagicEraser.erase_mode_t) :
  wf_image image → wf_array mask → mask_fits mask image →
  nothing_selected mask → ¬ colour_out_of_range erase_mode →
  MagicEraser.erase_selection image mask erase_mode
  = Ok (ImgRGBA (to_rgba image)).
Proof.
  intros Hwfi Hwf Hfit Hnone Hrange.
  assert (∀ f : Z → Z → rgba,
            (∀ y x, 0 ≤ y < height image → 0 ≤ x < width image →
                    f y x = at2 (to_rgba image) y x) →
            np_tabulate (height image) (width image) f = to_rgba image)
    as Htab.
  { intros f Hf. etrans; [by apply np_tabulate_ext|].
    rewrite <- nrows_to_rgba, <- ncols_to_rgba.
    by apply tabulate_at2, wf_to_rgba. }
  assert (∀ y x, 0 ≤ y < height image → 0 ≤ x < width image →
                 (128 <? at2 mask y x) = false) as Hlow.
  { intros y x Hy Hx. destruct Hfit as [Hr Hc].
    apply Z.ltb_ge, Hnone; lia. }
  destruct (erase_mode_cases erase_mode)
    as [->|[[c Hsolid]|[Hover|Hunknown]]]; [| |done|].
  - rewrite (erase_transparent_eq image mask Hfit). do 2 f_equal.
    apply Htab. intros y x Hy Hx. rewrite Hlow by done.
    by destruct (at2 (to_rgba image) y x) as [[[r g] b] a].
  - rewrite (erase_solid_eq image mask Hfit erase_mode c Hwf Hsolid).
    do 2 f_equal. apply Htab. intros y x Hy Hx. by rewrite Hlow.
  - by apply erase_selection_unknown.
Qed.

Lemma erase_empty_selection_witness :
  let image := ImgRGB (NDArray 1 2 [[(1, 2, 3); (4, 5, 6)]]) in
  let mask : Mask := NDArray 1 2 [[0; 128]] in
  (wf_image image ∧ wf_array mask ∧ mask_fits mask image
   ∧ nothing_selected mask
   ∧ ¬ colour_out_of_range (MagicEraser.ModeStr "white"))
  ∧ MagicEraser.erase_selection image mask (MagicEraser.ModeStr "white")
    = Ok (ImgRGBA (to_rgba image)).
Proof.
  assert (wf_image (ImgRGB (NDArray 1 2 [[(1, 2, 3); (4, 5, 6)]]))) as Hwfi
    by (unfold wf_image, wf_array; simpl; repeat split; try lia;
        repeat constructor).
  assert (wf_array (NDArray 1 2 [[0; 128]])) as Hwf
    by (unfold wf_array; simpl; repeat split; try lia; repeat constructor).
  assert (mask_fits (NDArray 1 2 [[0; 128]])
            (ImgRGB (NDArray 1 2 [[(1, 2, 3); (4, 5, 6)]]))) as Hfit
    by (split; reflexivity).
  assert (nothing_selected (NDArray 1 2 [[0; 128]])) as Hnone.
  { intros y x Hy Hx. simpl in Hy, Hx.
    assert (y = 0) as -> by lia.
    assert (x = 0 ∨ x = 1) as [-> | ->] by lia; vm_compute; discriminate. }
  assert (¬ colour_out_of_range (MagicEraser.ModeStr "white")) as Hrange
    by (intros []).
  split; [done|].
  exact (erase_empty_selection _ _ (MagicEraser.ModeStr "white")
           Hwfi Hwf Hfit Hnone Hrange).
Defined.

(** X25: a colour that cannot be stored.  With a mask of the image's
    shape, a colour tuple of three or four components, one of which lies
    outside 0..255, makes [erase_selection] raise [OverflowError],
    whatever the mask selects, even nothing. *)
Theorem erase_colour_overflow (image : Image) (mask : Mask)
    (erase_mode : MagicEraser.erase_mode_t) :
  mask_fits mask image → colour_out_of_range erase_mode →
  MagicEraser.erase_selection image mask erase_mode = Err OverflowError.
Proof.
  intros Hfit Hrange. by apply erase_overflow_eq.
Qed.

Lemma erase_colour_overflow_witness :
  let image := ImgRGB (NDArray 1 2 [[(1, 2, 3); (4, 5, 6)]]) in
  let mask : Mask := NDArray 1 2 [[0; 0]] in
  (mask_fits mask image
   ∧ colour_out_of_range (MagicEraser.ModeTuple [256; 0; 0]))
  ∧ MagicEraser.erase_selection image mask (MagicEraser.ModeTuple [256; 0; 0])
    = Err OverflowError.
Proof.
  assert (mask_fits (NDArray 1 2 [[0; 0]])
            (ImgRGB (NDArray 1 2 [[(1, 2, 3); (4, 5, 6)]]))) as Hfit
    by (split; reflexivity).
  assert (colour_out_of_range (MagicEraser.ModeTuple [256; 0; 0])) as Hrange
    by (split; [left; reflexivity|reflexivity]).
  split; [done|].
  exact (erase_colour_overflow _ _ _ Hfit Hrange).
Defined.

(** ** More of the fill operations *)

Lemma cvtColor_swap_twice (a : ndarray rgb) :
  ContentAwareFill.cvtColor_swap (ContentAwareFill.cvtColor_swap a) = a.
Proof.
  unfold ContentAwareFill.cvtColor_swap. rewrite np_map_compose.
  apply (np_map_id_on (λ _, True)).
  - by intros [[r g] b] _.
  - apply Forall_true. intros row. by apply Forall_true.
Qed.

(** X16: a method other than ['telea'] and ['ns'] inpaints nothing:
    [fill_selection] returns the 'RGB' conversion of the image, the
    conversion to BGR and back being the identity. *)
Theorem fill_selection_unknown_method
    (cv2_inpaint : ndarray rgb → ndarray Z → Z
                   → ContentAwareFill.inpaint_flag → ndarray rgb)
    (image : Image) (mask : Mask) (method : string) :
  method ≠ "telea" → method ≠ "ns" →
  ContentAwareFill.fill_selection cv2_inpaint image mask method
  = ImgRGB (to_rgb image).
Proof.
  intros Ht Hn. unfold ContentAwareFill.fill_selection.
  rewrite !eqb_other by done. by rewrite cvtColor_swap_twice.
Qed.

Lemma fill_selection_unknown_method_witness :
  let image := ImgRGBA (NDArray 1 1 [[(1, 2, 3, 4)]]) in
  ("patch" ≠ "telea" ∧ "patch" ≠ "ns")
  ∧ ContentAwareFill.fill_selection (λ a _ _ _, a) image
                                    (NDArray 1 1 [[255]]) "patch"
    = ImgRGB (to_rgb image).
Proof.
  assert ("patch" ≠ "telea") as Ht by discriminate.
  assert ("patch" ≠ "ns") as Hn by discriminate.
  split; [done|].
  exact (fill_selection_unknown_method (λ a _ _ _, a) _ _ "patch" Ht Hn).
Defined.

(** The coordinates that [np.where] yields hold [True]. *)
Lemma np_where_true (m : ndarray bool) :
  Forall (λ yx, at2 m (fst yx) (snd yx) = true) (np_where m).
Proof.
  apply Forall_forall. intros [y x] Hin. unfold np_where in Hin.
  apply list_elem_of_bind in Hin as (y0 & Hin & _).
  apply list_elem_of_bind in Hin as (x0 & Hin & _).
  destruct (at2 m y0 x0) eqn:Hcell.
  - apply list_elem_of_singleton in Hin. by injection Hin as -> ->.
  - by apply elem_of_nil in Hin.
Qed.

Lemma at2_above_threshold (mask : Mask) (y x : Z) :
  wf_array mask → 0 ≤ y < nrows mask → 0 ≤ x < ncols mask →
  at2 (MagicEraser.above_threshold mask) y x = (128 <? at2 mask y x).
Proof.
  intros Hwf Hy Hx. unfold MagicEraser.above_threshold.
  by rewrite at2_np_map.
Qed.

(** X17: [patch_match_fill] repaints masked pixels only.  With a mask of
    the image's size it returns an 'RGB' image of the same size in which
    every pixel whose mask sample is at most 128 has the value it had in
    the image. *)
Theorem patch_match_fill_keeps_unmasked
    (image : Image) (mask : Mask) (patch_size : Z) :
  wf_array mask → mask_fits mask image → 0 ≤ patch_size →
  ∃ out, ContentAwareFill.patch_match_fill image mask patch_size
         = Ok (ImgRGB out)
         ∧ nrows out = height image ∧ ncols out = width image
         ∧ ∀ y x, 0 ≤ y < height image → 0 ≤ x < width image →
                  at2 mask y x ≤ 128 →
                  at2 out y x = at2 (to_rgb image) y x.
Proof.
  intros Hwf Hfit Hsize.
  pose proof (same_shape_threshold image mask Hfit) as Hshape.
  pose proof Hfit as [Hfr Hfc].
  unfold ContentAwareFill.patch_match_fill.
  destruct (foldM_invariant
              (ContentAwareFill.fill_pixel (to_rgb image)
                 (MagicEraser.above_threshold mask) patch_size)
              (λ res, same_shape res (to_rgb image)
                      ∧ ∀ y x, 0 ≤ y < height image → 0 ≤ x < width image →
                               at2 mask y x ≤ 128 →
                               at2 res y x = at2 (to_rgb image) y x)
              (λ yx, (0 ≤ fst yx < nrows (to_rgb image)
                      ∧ 0 ≤ snd yx < ncols (to_rgb image))
                     ∧ at2 (MagicEraser.above_threshold mask)
                           (fst yx) (snd yx) = true)
              (to_rgb image)
              (np_where (MagicEraser.above_threshold mask)))
    as (res & Hfold & Hres & Hkeep).
  - done.
  - apply Forall_and. split.
    + destruct Hshape as [Hr Hc]. rewrite <- Hr, <- Hc.
      apply np_where_in_range.
    + apply np_where_true.
  - intros res [y' x'] [Hres Hkeep] [[Hy' Hx'] Hmasked]. simpl in *.
    destruct (fill_pixel_ok _ _ _ Hshape Hsize res y' x' Hres Hy' Hx')
      as (res' & Hstep & Hshape' & Hother).
    exists res'. split; [done|]. split; [done|].
    intros y x Hy Hx Hlow. rewrite Hother; [by apply Hkeep|lia|lia|].
    intros [= -> ->].
    rewrite at2_above_threshold in Hmasked by (done || lia).
    apply Z.ltb_lt in Hmasked. lia.
  - rewrite Hfold. simpl. exists res. split; [done|].
    destruct Hres as [Hr Hc].
    by rewrite Hr, Hc, nrows_to_rgb, ncols_to_rgb.
Qed.

Lemma patch_match_fill_keeps_unmasked_witness :
  let image :=
    ImgRGB (NDArray 3 3 [[(1, 1, 1); (2, 2, 2); (3, 3, 3)];
                         [(4, 4, 4); (5, 5, 5); (6, 6, 6)];
                         [(7, 7, 7); (8, 8, 8); (9, 9, 9)]]) in
  let mask : Mask := NDArray 3 3 [[0; 0; 0]; [0; 0; 255]; [0; 0; 0]] in
  (wf_array mask ∧ mask_fits mask image ∧ 0 ≤ 3)
  ∧ ∃ out, ContentAwareFill.patch_match_fill image mask 3 = Ok (ImgRGB out)
           ∧ nrows out = height image ∧ ncols out = width image
           ∧ ∀ y x, 0 ≤ y < height image → 0 ≤ x < width image →
                    at2 mask y x ≤ 128 →
                    at2 out y x = at2 (to_rgb image) y x.
Proof.
  assert (wf_array (NDArray 3 3 [[0; 0; 0]; [0; 0; 255]; [0; 0; 0]])) as Hwf
    by (unfold wf_array; simpl; repeat split; try lia; repeat constructor).
  assert (mask_fits (NDArray 3 3 [[0; 0; 0]; [0; 0; 255]; [0; 0; 0]])
            (ImgRGB (NDArray 3 3 [[(1, 1, 1); (2, 2, 2); (3, 3, 3)];
                                  [(4, 4, 4); (5, 5, 5); (6, 6, 6)];
                                  [(7, 7, 7); (8, 8, 8); (9, 9, 9)]])))
    as Hfit by (split; reflexivity).
  assert (0 ≤ 3) as Hsize by lia.
  split; [done|].
  exact (patch_match_fill_keeps_unmasked _ _ 3 Hwf Hfit Hsize).
Defined.

(** X18: with an empty selection (no mask sample above 128)
    [patch_match_fill] returns the 'RGB' conversion of the image
    unchanged, whatever the patch size. *)
Theorem patch_match_fill_empty_selection
    (image : Image) (mask : Mask) (patch_size : Z) :
  wf_array mask → nothing_selected mask →
  ContentAwareFill.patch_match_fill image mask patch_size
  = Ok (ImgRGB (to_rgb image)).
Proof.
  intros Hwf Hnone. unfold ContentAwareFill.patch_match_fill.
  assert (np_where (MagicEraser.above_threshold mask) = []) as ->; [|done].
  apply elem_of_nil_inv. intros [y x] Hin.
  pose proof (np_where_in_range (MagicEraser.above_threshold mask)) as Hrange.
  pose proof (np_where_true (MagicEraser.above_threshold mask)) as Htrue.
  rewrite Forall_forall in Hrange, Htrue.
  destruct (Hrange _ Hin) as [Hy Hx]. specialize (Htrue _ Hin).
  simpl in Hy, Hx, Htrue.
  rewrite at2_above_threshold in Htrue by done.
  apply Z.ltb_lt in Htrue. specialize (Hnone y x Hy Hx). lia.
Qed.

Lemma patch_match_fill_empty_selection_witness :
  let image := ImgRGB (NDArray 1 2 [[(1, 2, 3); (4, 5, 6)]]) in
  let mask : Mask := NDArray 1 2 [[0; 128]] in
  (wf_array mask ∧ nothing_selected mask)
  ∧ ContentAwareFill.patch_match_fill image mask 9
    = Ok (ImgRGB (to_rgb image)).
Proof.
  assert (wf_array (NDArray 1 2 [[0; 128]])) as Hwf
    by (unfold wf_array; simpl; repeat split; try lia; repeat constructor).
  assert (nothing_selected (NDArray 1 2 [[0; 128]])) as Hnone.
  { intros y x Hy Hx. simpl in Hy, Hx.
    assert (y = 0) as -> by lia.
    assert (x = 0 ∨ x = 1) as [-> | ->] by lia; vm_compute; discriminate. }
  split; [done|].
  exact (patch_match_fill_empty_selection _ _ 9 Hwf Hnone).
Defined.

(** ** Slices *)

(** An element of [l[lo:hi]] is the element of [l] at the same offset
    from [lo], and that position is before [hi]. *)
Lemma py_slice_lookup {A} (lo hi : Z) (l : list A) (i : nat) (v : A) :
  0 ≤ lo → 0 ≤ hi → py_slice lo hi l !! i = Some v →
  l !! (Z.to_nat lo + i)%nat = Some v ∧ lo + Z.of_nat i < hi.
Proof.
  intros Hlo Hhi. unfold py_slice, slice_bound.
  destruct (Z.ltb_spec lo 0); [lia|]. destruct (Z.ltb_spec hi 0); [lia|].
  rewrite lookup_take_Some, lookup_drop. intros [Hv Hi].
  pose proof (lookup_lt_Some _ _ _ Hv) as Hlen.
  assert (Z.to_nat (Z.min lo (Z.of_nat (length l))) = Z.to_nat lo) as Heq
    by lia.
  rewrite Heq in Hv. split; [done|]. lia.
Qed.

(** Inside the list the slice is read off directly. *)
Lemma py_slice_lookup_inside {A} (lo hi : Z) (l : list A) (i : nat) :
  0 ≤ lo → hi ≤ Z.of_nat (length l) → lo + Z.of_nat i < hi →
  py_slice lo hi l !! i = l !! (Z.to_nat lo + i)%nat.
Proof.
  intros Hlo Hhi Hi. unfold py_slice, slice_bound.
  destruct (Z.ltb_spec lo 0); [lia|]. destruct (Z.ltb_spec hi 0); [lia|].
  rewrite lookup_take_lt by lia. rewrite lookup_drop. f_equal. lia.
Qed.

Lemma existsb_none {A} (f : A → bool) (l : list A) :
  Forall (λ v, f v = false) l → existsb f l = false.
Proof. induction 1 as [|v l Hv _ IH]; simpl; [done|]. by rewrite Hv, IH. Qed.

(** A window of a boolean array that holds only [True] has no valid
    pixel. *)
Lemma np_any_window_masked (m : ndarray bool) (y1 y2 x1 x2 : Z) :
  0 ≤ y1 → 0 ≤ y2 → 0 ≤ x1 → 0 ≤ x2 →
  (∀ y x, y1 ≤ y < y2 → x1 ≤ x < x2 → 0 ≤ y → 0 ≤ x →
          (∃ row, elems m !! Z.to_nat y = Some row
                  ∧ is_Some (row !! Z.to_nat x)) →
          at2 m y x = true) →
  np_any (np_map negb (np_slice2 m y1 y2 x1 x2)) = false.
Proof.
  intros Hy1 Hy2 Hx1 Hx2 Hall. unfold np_any, np_map, np_slice2. simpl.
  apply existsb_none, Forall_lookup_2. intros i row Hrow.
  apply list_lookup_fmap_Some in Hrow as (row1 & -> & Hrow).
  apply list_lookup_fmap_Some in Hrow as (row0 & -> & Hrow).
  apply py_slice_lookup in Hrow as [Hrow Hi]; [|done|done].
  apply existsb_none, Forall_lookup_2. intros j b Hb.
  apply list_lookup_fmap_Some in Hb as (b0 & -> & Hb).
  apply py_slice_lookup in Hb as [Hb Hj]; [|done|done].
  specialize (Hall (y1 + Z.of_nat i) (x1 + Z.of_nat j)
                ltac:(lia) ltac:(lia) ltac:(lia) ltac:(lia)).
  replace (Z.to_nat (y1 + Z.of_nat i)) with (Z.to_nat y1 + i)%nat in Hall
    by lia.
  replace (Z.to_nat (x1 + Z.of_nat j)) with (Z.to_nat x1 + j)%nat in Hall
    by lia.
  unfold at2 in Hall.
  replace (Z.to_nat (y1 + Z.of_nat i)) with (Z.to_nat y1 + i)%nat in Hall
    by lia.
  replace (Z.to_nat (x1 + Z.of_nat j)) with (Z.to_nat x1 + j)%nat in Hall
    by lia.
  rewrite (list_lookup_total_alt (elems m)), Hrow in Hall. simpl in Hall.
  rewrite list_lookup_total_alt, Hb in Hall. simpl in Hall.
  unfold id. rewrite Hall; [done|]. exists row0. by split; [|eexists].
Qed.

Section PatchWindow.

Import ContentAwareFill.

Variables (image : ndarray rgb) (mask : ndarray bool) (patch_size : Z).
Hypothesis Hshape : same_shape mask image.
Hypothesis Hsize : 0 ≤ patch_size.

(** A target patch without a valid pixel accepts no candidate. *)
Lemma try_candidate_no_valid (target_patch : ndarray rgb)
    (target_mask : ndarray bool) (sy sx : Z) (best : best_t) :
  patch_size `div` 2 ≤ sy < nrows image - patch_size `div` 2 →
  patch_size `div` 2 ≤ sx < ncols image - patch_size `div` 2 →
  np_any (np_map negb target_mask) = false →
  try_candidate image mask target_patch target_mask
                (patch_size `div` 2) sy sx best = Ok best.
Proof.
  intros Hsy Hsx Hnone.
  pose proof (half_nonneg patch_size Hsize) as Hhalf.
  destruct Hshape as [Hr Hc]. unfold try_candidate.
  rewrite np_get2_in_range by lia. simpl.
  destruct (at2 mask sy sx); [done|].
  destruct (negb (shape_eqb _ _)); [done|].
  by rewrite Hnone.
Qed.

(** A pixel whose patch window holds masked pixels only finds no
    patch. *)
Lemma find_best_patch_window_masked (x y : Z) :
  0 ≤ y < nrows image → 0 ≤ x < ncols image →
  (∀ y' x', 0 ≤ y' < nrows mask → 0 ≤ x' < ncols mask →
            y - patch_size `div` 2 ≤ y' ≤ y + patch_size `div` 2 →
            x - patch_size `div` 2 ≤ x' ≤ x + patch_size `div` 2 →
            wf_array mask → at2 mask y' x' = true) →
  wf_array mask →
  _find_best_patch image mask (x, y) patch_size = Ok None.
Proof.
  intros Hy Hx Hwin Hwf.
  pose proof (half_nonneg patch_size Hsize) as Hhalf.
  unfold _find_best_patch.
  rewrite foldM_fixed; [done|].
  eapply Forall_impl; [apply Forall_py_range|].
  intros sy Hsy. simpl.
  apply foldM_fixed.
  eapply Forall_impl; [apply Forall_py_range|].
  intros sx Hsx. simpl.
  apply try_candidate_no_valid; [done|done|].
  apply np_any_window_masked; try lia.
  intros y' x' Hy' Hx' Hy0 Hx0 (row & Hrow & Hcell).
  destruct Hwf as (Hr & Hc & Hlen & Hrows).
  pose proof (lookup_lt_Some _ _ _ Hrow) as Hlt.
  apply Hwin; [lia| |lia|lia|done].
  rewrite Forall_forall in Hrows.
  pose proof (Hrows row ltac:(by eapply list_elem_of_lookup_2)) as Hlr.
  apply lookup_lt_is_Some_1 in Hcell. lia.
Qed.

End PatchWindow.

(** X19: a pixel whose whole patch window is masked is never filled.
    When every pixel of the image within [patch_size // 2] rows and
    columns of [(y, x)] has a mask sample above 128, no candidate is
    scored (the target patch has no unmasked pixel to compare), and
    [patch_match_fill] leaves the pixel as it was. *)
Theorem patch_match_fill_masked_window
    (image : Image) (mask : Mask) (patch_size y x : Z) :
  wf_array mask → mask_fits mask image → 0 ≤ patch_size →
  0 ≤ y < height image → 0 ≤ x < width image →
  window_masked mask (patch_size `div` 2) y x →
  ContentAwareFill._find_best_patch
    (to_rgb image) (MagicEraser.above_threshold mask) (x, y) patch_size
  = Ok None
  ∧ ∃ out, ContentAwareFill.patch_match_fill image mask patch_size
           = Ok (ImgRGB out)
           ∧ at2 out y x = at2 (to_rgb image) y x.
Proof.
  intros Hwf Hfit Hsize Hy Hx Hwin.
  pose proof (same_shape_threshold image mask Hfit) as Hshape.
  rewrite <- nrows_to_rgb in Hy. rewrite <- ncols_to_rgb in Hx.
  assert (ContentAwareFill._find_best_patch
            (to_rgb image) (MagicEraser.above_threshold mask) (x, y) patch_size
          = Ok None) as Hnone.
  { apply find_best_patch_window_masked; try done.
    - intros y' x' Hy' Hx' Hwy Hwx _. simpl in Hy', Hx'.
      rewrite at2_above_threshold by done.
      apply Z.ltb_lt. by apply Hwin.
    - by apply wf_np_map. }
  split; [done|].
  unfold ContentAwareFill.patch_match_fill.
  destruct (fill_loop_ok _ _ _ Hshape Hsize
              (np_where (MagicEraser.above_threshold mask)) y x)
    as (res & Hfold & _ & Hkeep); [|lia|lia|done|].
  - destruct Hshape as [Hr Hc]. rewrite <- Hr, <- Hc.
    apply np_where_in_range.
  - rewrite Hfold. simpl. by exists res.
Qed.

Lemma patch_match_fill_masked_window_witness :
  let image :=
    ImgRGB (NDArray 3 3 [[(1, 1, 1); (2, 2, 2); (3, 3, 3)];
                         [(4, 4, 4); (5, 5, 5); (6, 6, 6)];
                         [(7, 7, 7); (8, 8, 8); (9, 9, 9)]]) in
  let mask : Mask := NDArray 3 3 [[0; 0; 0]; [0; 255; 0]; [0; 0; 0]] in
  (wf_array mask ∧ mask_fits mask image ∧ window_masked mask (1 `div` 2) 1 1)
  ∧ ContentAwareFill._find_best_patch
      (to_rgb image) (MagicEraser.above_threshold mask) (1, 1) 1
    = Ok None.
Proof.
  assert (wf_array (NDArray 3 3 [[0; 0; 0]; [0; 255; 0]; [0; 0; 0]])) as Hwf
    by (unfold wf_array; simpl; repeat split; try lia; repeat constructor).
  assert (mask_fits (NDArray 3 3 [[0; 0; 0]; [0; 255; 0]; [0; 0; 0]])
            (ImgRGB (NDArray 3 3 [[(1, 1, 1); (2, 2, 2); (3, 3, 3)];
                                  [(4, 4, 4); (5, 5, 5); (6, 6, 6)];
                                  [(7, 7, 7); (8, 8, 8); (9, 9, 9)]])))
    as Hfit by (split; reflexivity).
  assert (window_masked (NDArray 3 3 [[0; 0; 0]; [0; 255; 0]; [0; 0; 0]])
            (1 `div` 2) 1 1) as Hwin.
  { intros y' x' _ _ Hy' Hx'. change (1 `div` 2) with 0 in Hy', Hx'.
    assert (y' = 1) as -> by lia. assert (x' = 1) as -> by lia.
    vm_compute. done. }
  split; [done|].
  refine (proj1 (patch_match_fill_masked_window _ _ 1 1 1 Hwf Hfit _ _ _ Hwin));
    simpl; lia.
Defined.

(** X20: with a patch size of 0 or 1 the patch of a masked pixel is the
    pixel itself, so nothing is ever filled: [patch_match_fill] returns
    the 'RGB' conversion of the image unchanged. *)
Theorem patch_match_fill_unit_patch
    (image : Image) (mask : Mask) (patch_size : Z) :
  wf_array mask → mask_fits mask image → 0 ≤ patch_size ≤ 1 →
  ContentAwareFill.patch_match_fill image mask patch_size
  = Ok (ImgRGB (to_rgb image)).
Proof.
  intros Hwf Hfit Hsize.
  pose proof (same_shape_threshold image mask Hfit) as Hshape.
  assert (patch_size `div` 2 = 0) as Hhalf
    by (apply Z.div_small; lia).
  unfold ContentAwareFill.patch_match_fill.
  rewrite fill_loop_unchanged; [done|].
  pose proof (np_where_in_range (MagicEraser.above_threshold mask)) as Hrange.
  pose proof (np_where_true (MagicEraser.above_threshold mask)) as Htrue.
  rewrite Forall_forall in Hrange, Htrue.
  apply Forall_forall. intros [y x] Hin. cbn [fst snd].
  destruct (Hrange _ Hin) as [Hy Hx]. specialize (Htrue _ Hin).
  cbn [fst snd] in Hy, Hx, Htrue.
  destruct Hshape as [Hr Hc].
  apply find_best_patch_window_masked; try done || lia.
  - intros y' x' _ _ Hy' Hx' _. rewrite Hhalf in Hy', Hx'.
    assert (y' = y) as -> by lia. assert (x' = x) as -> by lia. done.
  - by apply wf_np_map.
Qed.

Lemma patch_match_fill_unit_patch_witness :
  let image := ImgRGB (NDArray 1 2 [[(1, 2, 3); (4, 5, 6)]]) in
  let mask : Mask := NDArray 1 2 [[255; 0]] in
  (wf_array mask ∧ mask_fits mask image ∧ 0 ≤ 1 ≤ 1)
  ∧ ContentAwareFill.patch_match_fill image mask 1
    = Ok (ImgRGB (to_rgb image)).
Proof.
  assert (wf_array (NDArray 1 2 [[255; 0]])) as Hwf
    by (unfold wf_array; simpl; repeat split; try lia; repeat constructor).
  assert (mask_fits (NDArray 1 2 [[255; 0]])
            (ImgRGB (NDArray 1 2 [[(1, 2, 3); (4, 5, 6)]]))) as Hfit
    by (split; reflexivity).
  assert (0 ≤ 1 ≤ 1) as Hsize by lia.
  split; [done|].
  exact (patch_match_fill_unit_patch _ _ 1 Hwf Hfit Hsize).
Defined.

(** ** Where the filled values come from *)

(** The centre of the full patch around an interior position is the
    pixel at that position. *)
Lemma np_slice2_centre {A} `{!Inhabited A} (a : ndarray A) (half sy sx : Z) :
  wf_array a → 0 ≤ half →
  half ≤ sy < nrows a - half → half ≤ sx < ncols a - half →
  at2 (np_slice2 a (sy - half) (sy + half + 1) (sx - half) (sx + half + 1))
      half half
  = at2 a sy sx.
Proof.
  intros (Hr & Hc & Hlen & Hrows) Hhalf Hsy Hsx. unfold at2, np_slice2.
  cbn [elems].
  assert (Z.to_nat sy < length (elems a))%nat as Hlt by lia.
  apply lookup_lt_is_Some_2 in Hlt as [row Hrow].
  assert (length row = Z.to_nat (ncols a)) as Hlr.
  { rewrite Forall_forall in Hrows. apply Hrows.
    by eapply list_elem_of_lookup_2. }
  rewrite (list_lookup_total_alt (_ <$> _)), list_lookup_fmap.
  rewrite py_slice_lookup_inside by lia.
  replace (Z.to_nat (sy - half) + Z.to_nat half)%nat with (Z.to_nat sy)
    by lia.
  rewrite Hrow. simpl.
  rewrite (list_lookup_total_alt (elems a)), Hrow. simpl.
  rewrite !list_lookup_total_alt.
  rewrite py_slice_lookup_inside by lia.
  do 2 f_equal. lia.
Qed.

Section PatchSource.

Import ContentAwareFill.

Variables (image : ndarray rgb) (mask : ndarray bool) (patch_size : Z).
Hypothesis Hshape : same_shape mask image.
Hypothesis Hsize : 0 ≤ patch_size.
Hypothesis Hwf : wf_array image.

(** A candidate that replaces the best patch is the patch around an
    unmasked position. *)
Lemma try_candidate_result (target_patch : ndarray rgb)
    (target_mask : ndarray bool) (sy sx : Z) (best best' : best_t) :
  patch_size `div` 2 ≤ sy < nrows image - patch_size `div` 2 →
  patch_size `div` 2 ≤ sx < ncols image - patch_size `div` 2 →
  try_candidate image mask target_patch target_mask
                (patch_size `div` 2) sy sx best = Ok best' →
  best' = best
  ∨ (at2 mask sy sx = false
     ∧ snd best' = Some (np_slice2 image
                           (sy - patch_size `div` 2)
                           (sy + patch_size `div` 2 + 1)
                           (sx - patch_size `div` 2)
                           (sx + patch_size `div` 2 + 1))).
Proof.
  intros Hsy Hsx.
  pose proof (half_nonneg patch_size Hsize) as Hhalf.
  destruct Hshape as [Hr Hc]. unfold try_candidate.
  rewrite np_get2_in_range by lia. simpl.
  destruct (at2 mask sy sx) eqn:Hm; [intros [= <-]; by left|].
  destruct (negb (shape_eqb _ _)); [intros [= <-]; by left|].
  destruct (np_any _); [|intros [= <-]; by left].
  destruct (np_bool_select (np_slice2 _ _ _ _ _) _) as [c|e]; simpl;
    [|intros Herr; discriminate Herr].
  destruct (np_bool_select _ _) as [t|e]; simpl;
    [|intros Herr; discriminate Herr].
  match goal with |- context [if ?b then _ else _] => destruct b end;
    intros [= <-]; [right|left]; done.
Qed.

(** The search returns [None] or the full patch around a candidate
    position. *)
Lemma find_best_patch_source (target_pos : Z * Z) :
  ∃ r, _find_best_patch image mask target_pos patch_size = Ok r
       ∧ ∀ p, r = Some p →
              ∃ sy sx, candidate_centre image mask (patch_size `div` 2) sy sx
                       ∧ p = np_slice2 image
                               (sy - patch_size `div` 2)
                               (sy + patch_size `div` 2 + 1)
                               (sx - patch_size `div` 2)
                               (sx + patch_size `div` 2 + 1).
Proof.
  destruct target_pos as [x y]. unfold _find_best_patch.
  set (half := patch_size `div` 2).
  match goal with
  | |- context [foldM ?f ?s ?l] =>
      destruct (foldM_invariant f
                  (λ best, full_patch half best
                           ∧ patch_of_candidate image mask half best)
                  (λ sy, half ≤ sy < nrows image - half) s l)
        as (best & Hfold & _ & Hbest)
  end.
  - split; intros p Hp; discriminate Hp.
  - apply Forall_py_range.
  - intros best sy Hbest Hsy.
    apply (foldM_invariant _
             (λ best, full_patch half best
                      ∧ patch_of_candidate image mask half best)
             (λ sx, half ≤ sx < ncols image - half)); [done| |].
    + apply Forall_py_range.
    + intros best0 sx [Hfull Hsource] Hsx.
      match goal with
      | |- context [try_candidate _ _ (np_slice2 _ ?y1 ?y2 ?x1 ?x2)] =>
          destruct (try_candidate_ok image mask patch_size Hshape Hsize
                      y1 y2 x1 x2 sy sx best0 Hsy Hsx Hfull)
            as (best' & Hstep & Hfull')
      end.
      exists best'. split; [done|]. split; [done|].
      destruct (try_candidate_result _ _ sy sx best0 best' Hsy Hsx Hstep)
        as [->|[Hm Hnew]]; [done|].
      intros p Hp. rewrite Hnew in Hp. injection Hp as <-.
      exists sy, sx. by split.
  - rewrite Hfold. simpl. exists (snd best). split; [done|].
    intros p Hp. by apply Hbest.
Qed.

(** One iteration of the fill loop leaves its pixel alone or gives it the
    value of a candidate position of the image. *)
Lemma fill_pixel_source (res : ndarray rgb) (y x : Z) :
  same_shape res image → rectangular res →
  0 ≤ y < nrows image → 0 ≤ x < ncols image →
  ∃ res', fill_pixel image mask patch_size res (y, x) = Ok res'
          ∧ same_shape res' image ∧ rectangular res'
          ∧ (∀ y' x', 0 ≤ y' → 0 ≤ x' → (y', x') ≠ (y, x) →
                      at2 res' y' x' = at2 res y' x')
          ∧ (at2 res' y x = at2 res y x
             ∨ ∃ sy sx, candidate_centre image mask (patch_size `div` 2) sy sx
                        ∧ at2 res' y x = at2 image sy sx).
Proof.
  intros [Hr Hc] Hrect Hy Hx.
  pose proof (half_nonneg patch_size Hsize) as Hhalf.
  unfold fill_pixel.
  destruct (find_best_patch_source (x, y)) as (r & -> & Hsource). simpl.
  destruct r as [p|].
  - destruct (Hsource p eq_refl) as (sy & sx & Hcentre & ->).
    pose proof Hcentre as (Hsy & Hsx & _).
    rewrite np_get2_in_range
      by (simpl; rewrite slice_len_inside by lia; lia).
    simpl. rewrite np_set2_in_range by lia.
    eexists. split; [done|]. split; [done|].
    split; [by apply rectangular_set2|]. split.
    + intros y' x' Hy' Hx' Hne. apply at2_set2_other; lia || done.
    + right. exists sy, sx. split; [done|].
      rewrite at2_set2_same by (done || split; lia).
      by apply np_slice2_centre.
  - exists res. split; [done|]. split; [done|]. split; [done|].
    split; [done|]. by left.
Qed.

End PatchSource.

(** X21: [patch_match_fill] invents no colour.  Every pixel of the
    result has the value it had in the image, or the value of an
    unmasked pixel of the image whose full patch lies inside the
    image. *)
Theorem patch_match_fill_copies_unmasked
    (image : Image) (mask : Mask) (patch_size : Z) :
  wf_image image → wf_array mask → mask_fits mask image → 0 ≤ patch_size →
  let half := patch_size `div` 2 in
  ∃ out, ContentAwareFill.patch_match_fill image mask patch_size
         = Ok (ImgRGB out)
         ∧ ∀ y x, 0 ≤ y < height image → 0 ≤ x < width image →
             at2 out y x = at2 (to_rgb image) y x
             ∨ ∃ sy sx, half ≤ sy < height image - half
                        ∧ half ≤ sx < width image - half
                        ∧ at2 mask sy sx ≤ 128
                        ∧ at2 out y x = at2 (to_rgb image) sy sx.
Proof.
  intros Hwfi Hwf Hfit Hsize half.
  pose proof (same_shape_threshold image mask Hfit) as Hshape.
  pose proof (wf_to_rgb image Hwfi) as Hwfa.
  pose proof (half_nonneg patch_size Hsize) as Hhalf. fold half in Hhalf.
  unfold ContentAwareFill.patch_match_fill.
  destruct (foldM_invariant
              (ContentAwareFill.fill_pixel (to_rgb image)
                 (MagicEraser.above_threshold mask) patch_size)
              (λ res, same_shape res (to_rgb image) ∧ rectangular res
                      ∧ ∀ y x, in_bounds (to_rgb image) y x →
                          at2 res y x = at2 (to_rgb image) y x
                          ∨ ∃ sy sx,
                              candidate_centre (to_rgb image)
                                (MagicEraser.above_threshold mask) half sy sx
                              ∧ at2 res y x = at2 (to_rgb image) sy sx)
              (λ yx, 0 ≤ fst yx < nrows (to_rgb image)
                     ∧ 0 ≤ snd yx < ncols (to_rgb image))
              (to_rgb image)
              (np_where (MagicEraser.above_threshold mask)))
    as (res & Hfold & _ & _ & Hsource).
  - split; [done|]. split; [by destruct Hwfa as (_ & _ & ? & ?)|].
    intros y x _. by left.
  - destruct Hshape as [Hr Hc]. rewrite <- Hr, <- Hc.
    apply np_where_in_range.
  - intros res [y' x'] (Hres & Hrect & Hinv) [Hy' Hx']. simpl in Hy', Hx'.
    destruct (fill_pixel_source _ _ _ Hshape Hsize Hwfa res y' x'
                Hres Hrect Hy' Hx')
      as (res' & Hstep & Hshape' & Hrect' & Hother & Hthis).
    exists res'. split; [done|]. split; [done|]. split; [done|].
    intros y x [Hy Hx].
    destruct (decide ((y, x) = (y', x'))) as [[= -> ->]|Hne].
    + destruct Hthis as [Hsame|Hcopy]; [|by right].
      rewrite Hsame. by apply Hinv.
    + rewrite Hother by (lia || done). by apply Hinv.
  - rewrite Hfold. simpl. exists res. split; [done|].
    intros y x Hy Hx.
    destruct (Hsource y x) as [Hsame|(sy & sx & Hcentre & Hcopy)].
    + split; by rewrite ?nrows_to_rgb, ?ncols_to_rgb.
    + by left.
    + right. exists sy, sx.
      destruct Hcentre as (Hsy & Hsx & Hm).
      rewrite nrows_to_rgb in Hsy. rewrite ncols_to_rgb in Hsx.
      destruct Hfit as [Hfr Hfc].
      rewrite at2_above_threshold in Hm by (done || lia).
      apply Z.ltb_ge in Hm. done.
Qed.

Lemma patch_match_fill_copies_unmasked_witness :
  let image :=
    ImgRGB (NDArray 3 3 [[(1, 1, 1); (2, 2, 2); (3, 3, 3)];
                         [(4, 4, 4); (5, 5, 5); (6, 6, 6)];
                         [(7, 7, 7); (8, 8, 8); (9, 9, 9)]]) in
  let mask : Mask := NDArray 3 3 [[0; 0; 0]; [0; 0; 255]; [0; 0; 0]] in
  (wf_image image ∧ wf_array mask ∧ mask_fits mask image ∧ 0 ≤ 3)
  ∧ ∃ out, ContentAwareFill.patch_match_fill image mask 3 = Ok (ImgRGB out)
           ∧ ∀ y x, 0 ≤ y < height image → 0 ≤ x < width image →
               at2 out y x = at2 (to_rgb image) y x
               ∨ ∃ sy sx, 3 `div` 2 ≤ sy < height image - 3 `div` 2
                          ∧ 3 `div` 2 ≤ sx < width image - 3 `div` 2
                          ∧ at2 mask sy sx ≤ 128
                          ∧ at2 out y x = at2 (to_rgb image) sy sx.
Proof.
  assert (wf_image (ImgRGB (NDArray 3 3 [[(1, 1, 1); (2, 2, 2); (3, 3, 3)];
                                         [(4, 4, 4); (5, 5, 5); (6, 6, 6)];
                                         [(7, 7, 7); (8, 8, 8); (9, 9, 9)]])))
    as Hwfi by (unfold wf_image, wf_array; simpl; repeat split; try lia;
                repeat constructor).
  assert (wf_array (NDArray 3 3 [[0; 0; 0]; [0; 0; 255]; [0; 0; 0]])) as Hwf
    by (unfold wf_array; simpl; repeat split; try lia; repeat constructor).
  assert (mask_fits (NDArray 3 3 [[0; 0; 0]; [0; 0; 255]; [0; 0; 0]])
            (ImgRGB (NDArray 3 3 [[(1, 1, 1); (2, 2, 2); (3, 3, 3)];
                                  [(4, 4, 4); (5, 5, 5); (6, 6, 6)];
                                  [(7, 7, 7); (8, 8, 8); (9, 9, 9)]])))
    as Hfit by (split; reflexivity).
  assert (0 ≤ 3) as Hsize by lia.
  split; [done|].
  exact (patch_match_fill_copies_unmasked _ _ 3 Hwfi Hwf Hfit Hsize).
Defined.

(** ** Crop boxes *)

Lemma thirds_candidate_box (width height : Z) (edges : ndarray Z)
    (x y : Z) (best : Z * (Z * Z * Z * Z)) :
  0 ≤ width → 0 ≤ height → 0 ≤ x → 0 ≤ y →
  box_inside width height (snd best) ∧ box_large width height (snd best) →
  box_inside width height
    (snd (SmartCrop.thirds_candidate width height edges x y best))
  ∧ box_large width height
      (snd (SmartCrop.thirds_candidate width height edges x y best)).
Proof.
  intros Hw Hh Hx Hy Hbest. unfold SmartCrop.thirds_candidate.
  destruct (_ && _) eqn:Hcond; [|done].
  destruct (fst best <? _); [|done].
  apply andb_true_iff in Hcond as [Hcw Hch]. apply Z.ltb_lt in Hcw, Hch.
  pose proof (Z.div_pos width 2 Hw ltac:(lia)) as Hw2.
  pose proof (Z.div_pos height 2 Hh ltac:(lia)) as Hh2.
  simpl. split.
  - unfold box_inside. lia.
  - unfold box_large. right. lia.
Qed.

(** X22: whatever the edge map, the box [_rule_of_thirds_crop] chooses
    lies inside the image, and it is either the whole image or a window
    of more than half the image in each dimension. *)
Theorem rule_of_thirds_box_bounds (width height : Z) (edges : ndarray Z) :
  0 ≤ width → 0 ≤ height →
  box_inside width height (SmartCrop.rule_of_thirds_box width height edges)
  ∧ box_large width height (SmartCrop.rule_of_thirds_box width height edges).
Proof.
  intros Hw Hh. unfold SmartCrop.rule_of_thirds_box. cbn [foldl].
  pose proof (Z.div_pos width 3 Hw ltac:(lia)) as Hw3.
  pose proof (Z.div_pos height 3 Hh ltac:(lia)) as Hh3.
  repeat (apply thirds_candidate_box; [done|done|done || lia|done || lia|]).
  simpl. split.
  - unfold box_inside. lia.
  - by left.
Qed.

Lemma rule_of_thirds_box_bounds_witness :
  let edges : ndarray Z := NDArray 3 3 [[0; 0; 0]; [0; 0; 255]; [0; 255; 255]] in
  (0 ≤ 3 ∧ 0 ≤ 3)
  ∧ SmartCrop.rule_of_thirds_box 3 3 edges = (1, 1, 3, 3)
  ∧ box_inside 3 3 (SmartCrop.rule_of_thirds_box 3 3 edges).
Proof.
  assert (0 ≤ 3) as H3 by lia.
  split; [done|]. split; [reflexivity|].
  exact (proj1 (rule_of_thirds_box_bounds 3 3 _ H3 H3)).
Defined.

Lemma Forall_py_slice {A} (P : A → Prop) (lo hi : Z) (l : list A) :
  Forall P l → Forall P (py_slice lo hi l).
Proof. intros Hl. unfold py_slice. by apply Forall_take, Forall_drop. Qed.

Lemma np_sum_no_edges (edges : ndarray Z) (y1 y2 x1 x2 : Z) :
  no_edges edges → np_sum (np_slice2 edges y1 y2 x1 x2) = 0.
Proof.
  intros Hnone. unfold np_sum, np_slice2. cbn [elems].
  assert (Forall (Forall (λ v, v = 0))
            (py_slice x1 x2 <$> py_slice y1 y2 (elems edges))) as Hzero.
  { apply Forall_fmap. apply Forall_py_slice.
    eapply Forall_impl; [exact Hnone|].
    intros row Hrow. simpl. by apply Forall_py_slice. }
  induction Hzero as [|row rows Hrow _ IH]; [done|].
  simpl. rewrite foldr_app, IH.
  clear IH. induction Hrow as [|v row Hv _ IH]; [done|].
  simpl. by rewrite Hv, IH.
Qed.

Lemma crop_whole_image (image : Image) :
  wf_image image →
  SmartCrop.crop image (0, 0, width image, height image) = Ok image.
Proof.
  intros Hwf. unfold SmartCrop.crop.
  assert (∀ A `{!Inhabited A} (zero : A) (a : ndarray A),
            wf_array a →
            SmartCrop.crop_array zero a (0, 0, ncols a, nrows a) = a)
    as Hcrop.
  { intros A ? zero a Ha. unfold SmartCrop.crop_array.
    rewrite !Z.sub_0_r.
    etrans; [|by apply tabulate_at2].
    apply np_tabulate_ext. intros y x Hy Hx. rewrite !Z.add_0_l.
    destruct (Z.leb_spec 0 y), (Z.ltb_spec y (nrows a)),
      (Z.leb_spec 0 x), (Z.ltb_spec x (ncols a)); simpl; done || lia. }
  destruct image as [a|a|a]; simpl in *;
    destruct Hwf as (Hr & Hc & ?);
    (destruct (Z.ltb_spec (ncols a) 0); [lia|]);
    (destruct (Z.ltb_spec (nrows a) 0); [lia|]); simpl;
    by rewrite Hcrop.
Qed.

(** X23: an image in which no edge is detected is not cropped by the
    rule of thirds: every candidate window scores 0, which does not beat
    the initial best score, and the whole image is returned. *)
Theorem rule_of_thirds_without_edges
    (canny_edges : ndarray rgb → ndarray Z) (image : Image) :
  wf_image image → no_edges (canny_edges (to_rgb image)) →
  SmartCrop.rule_of_thirds_box (width image) (height image)
                               (canny_edges (to_rgb image))
  = (0, 0, width image, height image)
  ∧ SmartCrop._rule_of_thirds_crop canny_edges image = Ok image.
Proof.
  intros Hwf Hnone.
  assert (SmartCrop.rule_of_thirds_box (width image) (height image)
                                       (canny_edges (to_rgb image))
          = (0, 0, width image, height image)) as Hbox.
  { unfold SmartCrop.rule_of_thirds_box. cbn [foldl].
    assert (∀ x y, SmartCrop.thirds_candidate (width image) (height image)
                     (canny_edges (to_rgb image)) x y
                     (0, (0, 0, width image, height image))
                   = (0, (0, 0, width image, height image))) as Hstep.
    { intros x y. unfold SmartCrop.thirds_candidate.
      destruct (_ && _); [|done].
      by rewrite np_sum_no_edges. }
    by rewrite !Hstep. }
  split; [done|].
  unfold SmartCrop._rule_of_thirds_crop. rewrite Hbox.
  by apply crop_whole_image.
Qed.

Lemma rule_of_thirds_without_edges_witness :
  let image := ImgRGB (NDArray 1 2 [[(1, 2, 3); (4, 5, 6)]]) in
  let canny := λ a : ndarray rgb, np_map (λ _ : rgb, 0) a in
  (wf_image image ∧ no_edges (canny (to_rgb image)))
  ∧ SmartCrop._rule_of_thirds_crop canny image = Ok image.
Proof.
  assert (wf_image (ImgRGB (NDArray 1 2 [[(1, 2, 3); (4, 5, 6)]]))) as Hwf
    by (unfold wf_image, wf_array; simpl; repeat split; try lia;
        repeat constructor).
  assert (no_edges (np_map (λ _ : rgb, 0)
                      (to_rgb (ImgRGB (NDArray 1 2 [[(1, 2, 3); (4, 5, 6)]])))))
    as Hnone by (unfold no_edges; simpl; repeat constructor).
  split; [done|].
  exact (proj2 (rule_of_thirds_without_edges
                  (λ a, np_map (λ _ : rgb, 0) a) _ Hwf Hnone)).
Defined.

(** X24: the clamp of [smart_resize_crop].  On an image of width and
    height at least 0, for any new width between 0 and the image's,
    however the float arithmetic rounded it, the box of the wide branch
    lies inside the image, wherever the focus point is (even outside the
    image); likewise for any new height in the tall branch; and every box
    [crop_box] returns is one of these two, for some new width or
    height. *)
Theorem crop_clamp_inside_image (current_width current_height : Z) :
  0 ≤ current_width → 0 ≤ current_height →
  (∀ new_width focus_x,
     0 ≤ new_width ≤ current_width →
     box_inside current_width current_height
       (SmartCrop.width_box current_width current_height new_width focus_x))
  ∧ (∀ new_height focus_y,
       0 ≤ new_height ≤ current_height →
       box_inside current_width current_height
         (SmartCrop.height_box current_width current_height new_height focus_y))
  ∧ (∀ target_size focus_point box,
       SmartCrop.crop_box (current_width, current_height) target_size focus_point
       = Ok box →
       ∃ new_extent focus,
         box = SmartCrop.width_box current_width current_height new_extent focus
         ∨ box = SmartCrop.height_box current_width current_height
                   new_extent focus).
Proof.
  intros Hw Hh. split; [|split].
  - intros new_width focus_x Hnew.
    unfold SmartCrop.width_box, SmartCrop.clamp_offset, box_inside. lia.
  - intros new_height focus_y Hnew.
    unfold SmartCrop.height_box, SmartCrop.clamp_offset, box_inside. lia.
  - intros [tw th] focus_point box. unfold SmartCrop.crop_box.
    destruct (SmartCrop.true_div current_width current_height)
      as [current_ratio|e]; [|intros Herr; discriminate Herr].
    destruct (SmartCrop.true_div tw th)
      as [target_ratio|e]; [|intros Herr; discriminate Herr].
    cbn [mbind result_mbind result_bind].
    destruct (PrimFloat.ltb target_ratio current_ratio).
    + destruct (SmartCrop.py_int
                  (PrimFloat.mul (SmartCrop.float_of_int current_height)
                                 target_ratio)) as [new_width|e];
        cbn [mbind result_mbind result_bind];
        [|intros Herr; discriminate Herr].
      intros [= <-]. eexists _, _. by left.
    + destruct (SmartCrop.float_div current_width target_ratio)
        as [quotient|e]; cbn [mbind result_mbind result_bind];
        [|intros Herr; discriminate Herr].
      destruct (SmartCrop.py_int quotient) as [new_height|e];
        cbn [mbind result_mbind result_bind];
        [|intros Herr; discriminate Herr].
      intros [= <-]. eexists _, _. by right.
Qed.

Lemma crop_clamp_inside_image_witness :
  (0 ≤ 200 ∧ 0 ≤ 200 ∧ 0 ≤ 100 ≤ 200)
  ∧ SmartCrop.crop_box (200, 200) (100, 50) (Some (100, 500))
    = Ok (SmartCrop.height_box 200 200 100 500)
  ∧ SmartCrop.height_box 200 200 100 500 = (0, 100, 200, 200)
  ∧ box_inside 200 200 (SmartCrop.height_box 200 200 100 500).
Proof.
  assert (0 ≤ 200) as Hw by lia.
  assert (0 ≤ 100 ≤ 200) as Hnew by lia.
  split; [done|]. split; [reflexivity|]. split; [reflexivity|].
  exact (proj1 (proj2 (crop_clamp_inside_image 200 200 Hw Hw)) 100 500 Hnew).
Defined.

(** X27: the new width and height are truncated floats.  On a 100x49
    image with target size (1, 49) the product 49 * (1 / 49) rounds below
    1, so the new width is 0 and the crop box (50, 0, 50, 49) is empty;
    on a 21x2100 image with target size (3, 17) the quotient 21 / (3 / 17)
    rounds below 119, so the new height is 118 and the crop box is
    (0, 991, 21, 1109). *)
Theorem crop_box_truncates_floats :
  SmartCrop.crop_box (100, 49) (1, 49) None = Ok (50, 0, 50, 49)
  ∧ SmartCrop.crop_box (21, 2100) (3, 17) None = Ok (0, 991, 21, 1109).
Proof.
  split; reflexivity.
Qed.
